(** * @altevo/okay: the Result type, its adapters Try / TryAsync and its
    string rendering, embedded over a small model of the JavaScript store.

    Source files:
    - src/result.ts  (classes OkImpl and ErrImpl, Ok, Err, Try, TryAsync)
    - src/utils.ts   (resultToString)

    JavaScript values are primitives or references into a heap of objects.
    A computation takes the heap, returns the heap it leaves behind, and
    completes either normally with a value or abruptly with a thrown value. *)

From Stdlib Require Import Ascii String.
From stdpp Require Import gmap strings list pretty.

Local Open Scope string_scope.

(** ** Values and objects *)

Definition loc := positive.
Bind Scope positive_scope with loc.

(** Primitive values and object references.  [VNum n] stands for the
    JavaScript number n when n is a safe integer ([safe_integer], below
    2^53 in magnitude): those are the integers a number holds exactly and
    prints digit for digit.  Fractions, NaN, the infinities, larger numbers,
    BigInt, symbols and functions are outside the model. *)
Inductive value : Type :=
| VUndefined
| VNull
| VBool (b : bool)
| VNum (n : Z)
| VStr (s : string)
| VRef (l : loc).

(** [Number.isSafeInteger(n)] *)
Definition safe_integer (n : Z) : Prop := (Z.abs n < 2 ^ 53)%Z.

Inductive promise_state : Type :=
| Pending
| Fulfilled (v : value)
| Rejected (e : value).

(** Heap objects, one constructor per class the library meets.
    - [InstOk value] : an instance of class OkImpl, with its field value;
    - [InstErr error] : an instance of class ErrImpl, with its field error;
    - [InstError message] : an instance of the platform class Error (or of a
      subclass) with its message and no enumerable property of its own, as
      [new Error(message)] creates it;
    - [PlainObject props] : an object literal holding data only (no getter,
      no method, so no toJSON), its own enumerable properties in creation
      order (keys that are array indices, which the platform lists first,
      are not used);
    - [ArrayObject elems] : an array;
    - [PromiseObject st] : a platform promise. *)
Inductive object : Type :=
| InstOk (value : value)
| InstErr (error : value)
| InstError (message : string)
| PlainObject (props : list (string * value))
| ArrayObject (elems : list value)
| PromiseObject (st : promise_state).

Abbreviation heap := (gmap loc object).

(** ** Computations: heap passing with abrupt completion *)

Inductive completion (A : Type) : Type :=
| Normal (a : A)
| Throw (e : value).
Arguments Normal {A} a.
Arguments Throw {A} e.

Definition M (A : Type) : Type := heap → completion A * heap.

#[global] Instance M_ret : MRet M := λ A a h, (Normal a, h).

#[global] Instance M_bind : MBind M := λ A B f m h,
  match m h with
  | (Normal a, h') => f a h'
  | (Throw e, h') => (Throw e, h')
  end.

(** [throw e] *)
Definition throw {A : Type} (e : value) : M A := λ h, (Throw e, h).

(** [try { body } catch (e) { handler }] *)
Definition try_catch {A : Type} (body : M A) (handler : value → M A) : M A := λ h,
  match body h with
  | (Normal a, h') => (Normal a, h')
  | (Throw e, h') => handler e h'
  end.

(** [new C(...)]: the object is stored at a location the heap does not use. *)
Definition alloc (o : object) : M value := λ h,
  let l := fresh (dom h) in (Normal (VRef l), <[l := o]> h).

(** The TypeError the platform raises, e.g. for a call of a method the
    receiver does not have. *)
Definition type_error {A : Type} (msg : string) : M A :=
  e ← alloc (InstError msg); throw e.

(** A callback that computes its result from its argument alone. *)
Definition pure_fn (f : value → value) : value → M value := λ v, mret (f v).

(** ** src/result.ts: the two classes *)

(** [export const Ok = <T>(val: T): OkResult<T> => new OkImpl(val);] *)
Definition Ok (val : value) : M value := alloc (InstOk val).

(** [export const Err = <E>(val: E): ErrResult<E> => new ErrImpl(val);] *)
Definition Err (val : value) : M value := alloc (InstErr val).

Module OkImpl.

Definition isOk : bool := true.
Definition isError : bool := false.

(** [this.value] *)
Definition this_value (this : loc) : M value := λ h,
  (Normal (match h !! this with Some (InstOk v) => v | _ => VUndefined end), h).

(** [getOrNull(): T | null { return this.value; }] *)
Definition getOrNull (this : loc) : M value := this_value this.

(** [getOrDefault<T2>(): T | T2 { return this.value; }]: the method
    declares no parameter, the caller's fallback is dropped. *)
Definition getOrDefault (this : loc) : M value := this_value this.

(** [getOrThrow(): T { return this.value; }] *)
Definition getOrThrow (this : loc) : M value := this_value this.

(** [errorOrNull(): null { return null; }] *)
Definition errorOrNull (this : loc) : M value := mret VNull.

(** [map<T2>(fn) { return Ok(fn(this.value)); }] *)
Definition map (this : loc) (fn : value → M value) : M value :=
  v ← this_value this; y ← fn v; Ok y.

(** [mapError<E2>(fn) { return this; }] *)
Definition mapError (this : loc) (fn : value → M value) : M value :=
  mret (VRef this).

(** [fold<T2>(okFn) { return okFn(this.value); }] *)
Definition fold (this : loc) (okFn : value → M value) : M value :=
  v ← this_value this; okFn v.

(** [onOk(fn): void { fn(this.value); }] *)
Definition onOk (this : loc) (fn : value → M value) : M value :=
  v ← this_value this; _ ← fn v; mret VUndefined.

(** [onError(): void { return; }] *)
Definition onError (this : loc) : M value := mret VUndefined.

End OkImpl.

Module ErrImpl.

Definition isOk : bool := false.
Definition isError : bool := true.

(** [this.error] *)
Definition this_error (this : loc) : M value := λ h,
  (Normal (match h !! this with Some (InstErr e) => e | _ => VUndefined end), h).

(** [getOrNull(): null { return null; }] *)
Definition getOrNull (this : loc) : M value := mret VNull.

(** [getOrDefault<T2>(defaultVal: T2): T2 { return defaultVal; }] *)
Definition getOrDefault (this : loc) (defaultVal : value) : M value := mret defaultVal.

(** [getOrThrow(): never { throw this.error; }] *)
Definition getOrThrow (this : loc) : M value :=
  e ← this_error this; throw e.

(** [errorOrNull(): E | null { return this.error; }] *)
Definition errorOrNull (this : loc) : M value := this_error this.

(** [map<T2>(fn) { return this; }] *)
Definition map (this : loc) (fn : value → M value) : M value :=
  mret (VRef this).

(** [mapError<E2>(fn) { return Err(fn(this.error)); }] *)
Definition mapError (this : loc) (fn : value → M value) : M value :=
  e ← this_error this; y ← fn e; Err y.

(** [fold<T2>(_okFn, errFn) { return errFn(this.error); }] *)
Definition fold (this : loc) (_okFn errFn : value → M value) : M value :=
  e ← this_error this; errFn e.

(** [onOk(): void { return; }] *)
Definition onOk (this : loc) : M value := mret VUndefined.

(** [onError(fn): void { fn(this.error); }] *)
Definition onError (this : loc) (fn : value → M value) : M value :=
  e ← this_error this; _ ← fn e; mret VUndefined.

End ErrImpl.

(** ** Calls on a value of type [Result<T, E> = OkResult<T> | ErrResult<E>]

    A member access [r.m(...)] runs the member of the class [r] is an instance
    of.  The TypeScript types admit no other receiver; for one, the call
    completes with the platform's TypeError. *)
Definition dispatch {A : Type} (r : value) (ok err : loc → M A) : M A := λ h,
  match r with
  | VRef l =>
      match h !! l with
      | Some (InstOk _) => ok l h
      | Some (InstErr _) => err l h
      | _ => type_error "not a Result" h
      end
  | _ => type_error "not a Result" h
  end.

Definition isOk (r : value) : M bool :=
  dispatch r (λ _, mret OkImpl.isOk) (λ _, mret ErrImpl.isOk).
Definition isError (r : value) : M bool :=
  dispatch r (λ _, mret OkImpl.isError) (λ _, mret ErrImpl.isError).
Definition getOrNull (r : value) : M value :=
  dispatch r OkImpl.getOrNull ErrImpl.getOrNull.
Definition getOrDefault (r defaultVal : value) : M value :=
  dispatch r OkImpl.getOrDefault (λ this, ErrImpl.getOrDefault this defaultVal).
Definition getOrThrow (r : value) : M value :=
  dispatch r OkImpl.getOrThrow ErrImpl.getOrThrow.
Definition errorOrNull (r : value) : M value :=
  dispatch r OkImpl.errorOrNull ErrImpl.errorOrNull.
Definition map (r : value) (fn : value → M value) : M value :=
  dispatch r (λ this, OkImpl.map this fn) (λ this, ErrImpl.map this fn).
Definition mapError (r : value) (fn : value → M value) : M value :=
  dispatch r (λ this, OkImpl.mapError this fn) (λ this, ErrImpl.mapError this fn).
Definition fold (r : value) (okFn errFn : value → M value) : M value :=
  dispatch r (λ this, OkImpl.fold this okFn) (λ this, ErrImpl.fold this okFn errFn).
Definition onOk (r : value) (fn : value → M value) : M value :=
  dispatch r (λ this, OkImpl.onOk this fn) ErrImpl.onOk.
Definition onError (r : value) (fn : value → M value) : M value :=
  dispatch r OkImpl.onError (λ this, ErrImpl.onError this fn).

(** ** The adapter Try

    [export const Try = <T>(fn: () => T): Result<T, Error> => {
       try { return Ok(fn()); } catch (e: any) { return Err(e); } }] *)
Definition Try (fn : M value) : M value :=
  try_catch (x ← fn; Ok x) (λ e, Err e).

(** ** The platform's structural serializer: [JSON.stringify(v, null, 2)]

    The serializer is the platform's (ECMAScript, JSON.stringify with its
    operations QuoteJSONString, SerializeJSONProperty, SerializeJSONObject and
    SerializeJSONArray), here on the values of the model, with the gap of two
    spaces [resultToString] asks for. *)

Definition dquote : string := String (ascii_of_nat 34) EmptyString.
Definition newline : string := String (ascii_of_nat 10) EmptyString.
Definition gap : string := "  ".

Definition hex_digit (n : nat) : ascii :=
  ascii_of_nat (if (n <? 10)%nat then (48 + n)%nat else (87 + n)%nat).

(** One code unit of a string inside the quotes of its JSON form. *)
Definition quote_code_unit (c : ascii) : string :=
  let n := nat_of_ascii c in
  if (n =? 8)%nat then "\b"
  else if (n =? 9)%nat then "\t"
  else if (n =? 10)%nat then "\n"
  else if (n =? 12)%nat then "\f"
  else if (n =? 13)%nat then "\r"
  else if (n =? 34)%nat then "\" ++ dquote
  else if (n =? 92)%nat then "\\"
  else if (n <? 32)%nat then "\u00" ++ String (hex_digit (n / 16)%nat) (String (hex_digit (n mod 16)%nat) EmptyString)
  else String c EmptyString.

Fixpoint quote_code_units (s : string) : string :=
  match s with
  | EmptyString => EmptyString
  | String c rest => quote_code_unit c ++ quote_code_units rest
  end.

Definition QuoteJSONString (s : string) : string :=
  dquote ++ quote_code_units s ++ dquote.

Fixpoint join (sep : string) (parts : list string) : string :=
  match parts with
  | [] => EmptyString
  | [p] => p
  | p :: rest => p ++ sep ++ join sep rest
  end.

(** The own enumerable string-keyed properties of an object, in the order
    the serializer visits them.  An instance of OkImpl or ErrImpl has its
    constructor parameter property first ([constructor(public value: T)],
    assigned when the constructor is entered), then the fields isOk and
    isError in the order of their initializers.  The message of an Error and
    the state of a promise are not enumerable. *)
Definition own_enumerable_properties (o : object) : list (string * value) :=
  match o with
  | InstOk v => [("value", v); ("isOk", VBool OkImpl.isOk); ("isError", VBool OkImpl.isError)]
  | InstErr e => [("error", e); ("isOk", VBool ErrImpl.isOk); ("isError", VBool ErrImpl.isError)]
  | PlainObject props => props
  | InstError _ | ArrayObject _ | PromiseObject _ => []
  end.

(** Outcome of a serialization step: a result, the cycle the platform
    reports as a TypeError, or the recursion bound of the model reached. *)
Inductive ser (A : Type) : Type :=
| Ser (a : A)
| Cyclic
| OutOfFuel.
Arguments Ser {A} a.
Arguments Cyclic {A}.
Arguments OutOfFuel {A}.

(** Members of an object: a property whose value serializes to undefined is
    left out. *)
Fixpoint serialize_members (go : value → ser (option string))
    (props : list (string * value)) : ser (list string) :=
  match props with
  | [] => Ser []
  | (k, v) :: rest =>
      match go v with
      | Ser o =>
          match serialize_members go rest with
          | Ser ms =>
              Ser (match o with
                   | Some s => (QuoteJSONString k ++ ": " ++ s) :: ms
                   | None => ms
                   end)
          | Cyclic => Cyclic
          | OutOfFuel => OutOfFuel
          end
      | Cyclic => Cyclic
      | OutOfFuel => OutOfFuel
      end
  end.

(** Elements of an array: an element that serializes to undefined is
    written as null. *)
Fixpoint serialize_elements (go : value → ser (option string))
    (elems : list value) : ser (list string) :=
  match elems with
  | [] => Ser []
  | v :: rest =>
      match go v with
      | Ser o =>
          match serialize_elements go rest with
          | Ser ms => Ser (default "null" o :: ms)
          | Cyclic => Cyclic
          | OutOfFuel => OutOfFuel
          end
      | Cyclic => Cyclic
      | OutOfFuel => OutOfFuel
      end
  end.

(** [open] and [close] are the brackets, [stepback] the indentation of the
    enclosing level. *)
Definition wrap_members (open close stepback : string) (partial : list string) : string :=
  match partial with
  | [] => open ++ close
  | _ =>
      let indent := stepback ++ gap in
      open ++ newline ++ indent ++ join ("," ++ newline ++ indent) partial
           ++ newline ++ stepback ++ close
  end.

(** [stack] holds the objects being serialized: meeting one of them again
    is a cycle.  Every nested object costs one unit of [fuel].  A number is
    printed by its decimal digits, which is what the platform prints for the
    numbers of the model, the safe integers. *)
Fixpoint SerializeJSONProperty (fuel : nat) (h : heap) (stack : list loc)
    (indent : string) (v : value) : ser (option string) :=
  match v with
  | VUndefined => Ser None
  | VNull => Ser (Some "null")
  | VBool true => Ser (Some "true")
  | VBool false => Ser (Some "false")
  | VNum n => Ser (Some (pretty n))
  | VStr s => Ser (Some (QuoteJSONString s))
  | VRef l =>
      match fuel with
      | O => OutOfFuel
      | S fuel' =>
          if decide (l ∈ stack) then Cyclic
          else
            let go := SerializeJSONProperty fuel' h (l :: stack) (indent ++ gap) in
            match h !! l with
            | None => Ser None
            | Some (ArrayObject elems) =>
                match serialize_elements go elems with
                | Ser partial => Ser (Some (wrap_members "[" "]" indent partial))
                | Cyclic => Cyclic
                | OutOfFuel => OutOfFuel
                end
            | Some o =>
                match serialize_members go (own_enumerable_properties o) with
                | Ser partial => Ser (Some (wrap_members "{" "}" indent partial))
                | Cyclic => Cyclic
                | OutOfFuel => OutOfFuel
                end
            end
      end
  end.

(** [JSON.stringify(v, null, 2)] on the values of the model: a string, or
    undefined ([None]) when [v] has no JSON form; a cyclic structure raises a
    TypeError.  The values of the model are data: none has a toJSON method
    or a getter and none is a BigInt, so serializing runs no code of the
    payload and a cycle is the only fault.  The text of the TypeError is the
    engine's own and differs between engines; the model keeps the first line
    of V8's, and no statement below depends on it.  Nesting is at most as
    deep as the heap has objects, so the bound is never reached (lemma
    [SerializeJSONProperty_fuel]). *)
Definition JSON_stringify (v : value) : M (option string) := λ h,
  match SerializeJSONProperty (S (size h)) h [] EmptyString v with
  | Ser o => (Normal o, h)
  | Cyclic | OutOfFuel => type_error "Converting circular structure to JSON" h
  end.

(** A value substituted into a template literal: [`${x}`]. *)
Definition template_string (o : option string) : string := default "undefined" o.

(** [a ?? b] chooses [b] exactly when [a] is null or undefined. *)
Definition nullish (v : value) : bool :=
  match v with VUndefined | VNull => true | _ => false end.

(** ** src/utils.ts

    [export function resultToString(result: Result<unknown, unknown>): string {
       const prefix = result.isOk ? 'Ok' : 'Err';
       return `${prefix}(${JSON.stringify(result.getOrNull() ?? result.errorOrNull(), null, 2)})`;
     }] *)
Definition resultToString (result : value) : M string :=
  ok ← isOk result;
  let prefix := if ok : bool then "Ok" else "Err" in
  v ← getOrNull result;
  payload ← (if nullish v then errorOrNull result else mret v);
  s ← JSON_stringify payload;
  mret (prefix ++ "(" ++ template_string s ++ ")").

(** ** toString of the two classes *)

(** [x] is an instance of Error in heap [h]. *)
Definition is_Error (h : heap) (x : value) : bool :=
  match x with
  | VRef l => match h !! l with Some (InstError _) => true | _ => false end
  | _ => false
  end.

(** [x instanceof Error] *)
Definition instanceof_Error (x : value) : M bool := λ h, (Normal (is_Error h x), h).

(** [x.message], read from an instance of Error. *)
Definition message_of (x : value) : M string := λ h,
  (Normal (match x with
           | VRef l => match h !! l with Some (InstError m) => m | _ => EmptyString end
           | _ => EmptyString
           end), h).

(** OkImpl: [toString(): string { return resultToString(this); }] *)
Definition OkImpl_toString (this : loc) : M string := resultToString (VRef this).

(** ErrImpl:
    [toString(): string {
       if (this.error instanceof Error) { return `Err(${this.error.message})`; }
       else { return resultToString(this); } }] *)
Definition ErrImpl_toString (this : loc) : M string :=
  e ← ErrImpl.this_error this;
  b ← instanceof_Error e;
  if b : bool
  then m ← message_of e; mret ("Err(" ++ m ++ ")")
  else resultToString (VRef this).

Definition toString (r : value) : M string :=
  dispatch r OkImpl_toString ErrImpl_toString.

(** ** Async functions

    The body of an async function runs until it finishes or reaches an
    [await]; there it is suspended with the awaited value [p], the heap [h]
    it leaves and its continuation [k].  The event loop resumes it later, in
    the heap of that moment, with the outcome of the awaited promise. *)
Inductive async (A : Type) : Type :=
| Done (c : completion A) (h : heap)
| Await (p : value) (h : heap) (k : completion value → heap → async A).
Arguments Done {A} c h.
Arguments Await {A} p h k.

Definition Async (A : Type) : Type := heap → async A.

Fixpoint async_bind {A B : Type} (f : A → Async B) (a : async A) : async B :=
  match a with
  | Done (Normal x) h => f x h
  | Done (Throw e) h => Done (Throw e) h
  | Await p h k => Await p h (λ c h', async_bind f (k c h'))
  end.

#[global] Instance Async_ret : MRet Async := λ A a h, Done (Normal a) h.
#[global] Instance Async_bind : MBind Async := λ A B f m h, async_bind f (m h).

(** A synchronous computation inside an async body. *)
Definition sync {A : Type} (m : M A) : Async A := λ h,
  let '(c, h') := m h in Done c h'.

(** [await p] *)
Definition await (p : value) : Async value := λ h,
  Await p h (λ c h', Done c h').

(** [try { body } catch (e) { handler }] around a body that may suspend. *)
Fixpoint async_catch {A : Type} (handler : value → Async A) (a : async A) : async A :=
  match a with
  | Done (Normal x) h => Done (Normal x) h
  | Done (Throw e) h => handler e h
  | Await p h k => Await p h (λ c h', async_catch handler (k c h'))
  end.

Definition async_try_catch {A : Type} (body : Async A) (handler : value → Async A) : Async A :=
  λ h, async_catch handler (body h).

(** What [await p] resumes with in heap [h]: nothing yet while [p] is a
    pending promise, the value or the thrown reason of a settled promise,
    and [p] itself when it is no promise (the values of the model carry no
    then method). *)
Definition await_outcome (h : heap) (p : value) : option (completion value) :=
  match p with
  | VRef l =>
      match h !! l with
      | Some (PromiseObject Pending) => None
      | Some (PromiseObject (Fulfilled v)) => Some (Normal v)
      | Some (PromiseObject (Rejected e)) => Some (Throw e)
      | _ => Some (Normal p)
      end
  | _ => Some (Normal p)
  end.

(** A call of an async function in flight: finished, or suspended with the
    promise [q] it returned to its caller. *)
Inductive task : Type :=
| Finished
| Suspended (q : loc) (p : value) (k : completion value → heap → async value).

(** The body's completion settles the promise of the call: a returned value
    fulfils it (the bodies here return a Result, never a thenable), a thrown
    value rejects it. *)
Definition settle (q : loc) (c : completion value) (h : heap) : heap :=
  <[q := PromiseObject (match c with
                        | Normal v => Fulfilled v
                        | Throw e => Rejected e
                        end)]> h.

Definition drive (q : loc) (a : async value) : task * heap :=
  match a with
  | Done c h => (Finished, settle q c h)
  | Await p h k => (Suspended q p k, h)
  end.

(** The call itself: it creates the promise, runs the body up to its first
    [await] and returns the promise. *)
Definition async_call (body : Async value) (h : heap) : value * task * heap :=
  let q := fresh (dom h) in
  let '(t, h') := drive q (body (<[q := PromiseObject Pending]> h)) in
  (VRef q, t, h').

(** One job of the event loop for task [t], in heap [h]. *)
Definition resume (t : task) (h : heap) : task * heap :=
  match t with
  | Finished => (Finished, h)
  | Suspended q p k =>
      match await_outcome h p with
      | None => (t, h)
      | Some c => drive q (k c h)
      end
  end.

(** ** The adapter TryAsync

    [export const TryAsync = async <T>(fn: () => Promise<T>): AsyncResult<T, Error> => {
       try { return Ok(await fn()); } catch (e: any) { return Err(e); } }] *)
Definition TryAsync_body (fn : M value) : Async value :=
  async_try_catch (p ← sync fn; x ← await p; sync (Ok x)) (λ e, sync (Err e)).

Definition TryAsync (fn : M value) : heap → value * task * heap :=
  async_call (TryAsync_body fn).

(** [new Error(msg)] *)
Definition new_Error (msg : string) : M value := alloc (InstError msg).

(** ** Vocabulary of the statements

    What a value is as a Result in a heap: [Success v] for an instance of
    OkImpl holding [v], [Failure e] for an instance of ErrImpl holding [e]. *)
Inductive result_view : Type :=
| Success (v : value)
| Failure (e : value).

Definition view (h : heap) (r : value) : option result_view :=
  match r with
  | VRef l =>
      match h !! l with
      | Some (InstOk v) => Some (Success v)
      | Some (InstErr e) => Some (Failure e)
      | _ => None
      end
  | _ => None
  end.

(** What [e.message] reads as a string: the message of an Error, or the
    string stored under the key message of an object literal. *)
Definition message_attribute (h : heap) (e : value) : option string :=
  match e with
  | VRef l =>
      match h !! l with
      | Some (InstError m) => Some m
      | Some (PlainObject props) =>
          match snd <$> list_find (λ kv, String.eqb (fst kv) "message") props with
          | Some (_, VStr m) => Some m
          | _ => None
          end
      | _ => None
      end
  | _ => None
  end.

(** The continuation of the body of TryAsync after its [await]. *)
Definition TryAsync_continuation : completion value → heap → async value :=
  λ c h', async_catch (λ e, sync (Err e)) (async_bind (λ x, sync (Ok x)) (Done c h')).

(** [r.value = v] for [r] an instance of OkImpl, as a callback may write it:
    the field is declared [public value: T], without readonly. *)
Definition assign_value (r v : value) : M value := λ h,
  match r with
  | VRef l =>
      match h !! l with
      | Some (InstOk _) => (Normal v, <[l := InstOk v]> h)
      | _ => (Normal v, h)
      end
  | _ => (Normal v, h)
  end.

(** The callback [x => x * 2] on numbers; the conversions that [*] applies
    to other operands are outside the model. *)
Definition times_two : value → M value :=
  pure_fn (λ x, match x with VNum n => VNum (n * 2) | _ => VUndefined end).

(** * Properties *)

(** ** The store *)

Lemma fresh_lookup (h : heap) : h !! fresh (dom h) = None.
Proof. apply not_elem_of_dom, is_fresh. Qed.

Lemma alloc_run (o : object) (h : heap) :
  alloc o h = (Normal (VRef (fresh (dom h))), <[fresh (dom h) := o]> h).
Proof. reflexivity. Qed.

Lemma lookup_alloc_old (h : heap) (o o' : object) (l : loc) :
  h !! l = Some o' → <[fresh (dom h) := o]> h !! l = Some o'.
Proof.
  intros Hl. rewrite lookup_insert_ne; [done|].
  intros <-. rewrite fresh_lookup in Hl. discriminate.
Qed.

Lemma view_Success (h : heap) (r v : value) :
  view h r = Some (Success v) ↔ ∃ l, r = VRef l ∧ h !! l = Some (InstOk v).
Proof.
  split.
  - destruct r as [| | | | |l]; simpl; try discriminate.
    destruct (h !! l) as [[]|] eqn:E; intros [=]; subst. eauto.
  - intros (l & -> & Hl). simpl. by rewrite Hl.
Qed.

Lemma view_Failure (h : heap) (r e : value) :
  view h r = Some (Failure e) ↔ ∃ l, r = VRef l ∧ h !! l = Some (InstErr e).
Proof.
  split.
  - destruct r as [| | | | |l]; simpl; try discriminate.
    destruct (h !! l) as [[]|] eqn:E; intros [=]; subst. eauto.
  - intros (l & -> & Hl). simpl. by rewrite Hl.
Qed.

Lemma view_alloc_old (h : heap) (o : object) (r : value) (w : result_view) :
  view h r = Some w → view (<[fresh (dom h) := o]> h) r = Some w.
Proof.
  destruct r as [| | | | |l]; simpl; try discriminate.
  destruct (h !! l) as [o'|] eqn:E; [|discriminate].
  by rewrite (lookup_alloc_old h o o' l E).
Qed.

Lemma view_alloc_new (h : heap) (o : object) :
  view (<[fresh (dom h) := o]> h) (VRef (fresh (dom h))) =
    match o with
    | InstOk v => Some (Success v)
    | InstErr e => Some (Failure e)
    | _ => None
    end.
Proof. simpl. by rewrite lookup_insert_eq. Qed.

Lemma dispatch_Success {A : Type} (h : heap) (l : loc) (v : value) (ok err : loc → M A) :
  h !! l = Some (InstOk v) → dispatch (VRef l) ok err h = ok l h.
Proof. intros Hl. unfold dispatch. by rewrite Hl. Qed.

Lemma dispatch_Failure {A : Type} (h : heap) (l : loc) (e : value) (ok err : loc → M A) :
  h !! l = Some (InstErr e) → dispatch (VRef l) ok err h = err l h.
Proof. intros Hl. unfold dispatch. by rewrite Hl. Qed.

Lemma bind_Normal {A B : Type} (m : M A) (k : A → M B) (h h' : heap) (a : A) :
  m h = (Normal a, h') → (m ≫= k) h = k a h'.
Proof. intros Hm. unfold mbind, M_bind. by rewrite Hm. Qed.

Lemma bind_Throw {A B : Type} (m : M A) (k : A → M B) (h h' : heap) (e : value) :
  m h = (Throw e, h') → (m ≫= k) h = (Throw e, h').
Proof. intros Hm. unfold mbind, M_bind. by rewrite Hm. Qed.

(** Unfolds the monad and the methods down to heap lookups. *)
Ltac run :=
  unfold OkImpl.getOrNull, OkImpl.getOrDefault, OkImpl.getOrThrow, OkImpl.errorOrNull,
    OkImpl.map, OkImpl.mapError, OkImpl.fold, OkImpl.this_value,
    ErrImpl.getOrNull, ErrImpl.getOrDefault, ErrImpl.getOrThrow, ErrImpl.errorOrNull,
    ErrImpl.map, ErrImpl.mapError, ErrImpl.fold, ErrImpl.this_error,
    Ok, Err, pure_fn, throw, try_catch;
  unfold mbind, mret, M_bind, M_ret; simpl.

(** Replaces a Result among the hypotheses by its location and object, and
    resolves the calls on it. *)
Ltac receiver H :=
  first [ apply view_Success in H | apply view_Failure in H ];
  let l := fresh "l" in
  let Hl := fresh "Hl" in
  destruct H as (l & -> & Hl);
  unfold isOk, isError, getOrNull, getOrDefault, getOrThrow, errorOrNull, map, mapError, fold;
  rewrite ?(dispatch_Success _ _ _ _ _ Hl), ?(dispatch_Failure _ _ _ _ _ Hl).

(** ** Accessors, one at a time *)

Lemma isOk_Success (h : heap) (r v : value) :
  view h r = Some (Success v) → isOk r h = (Normal true, h).
Proof. intros Hr. by receiver Hr. Qed.

Lemma isOk_Failure (h : heap) (r e : value) :
  view h r = Some (Failure e) → isOk r h = (Normal false, h).
Proof. intros Hr. by receiver Hr. Qed.

Lemma isError_Success (h : heap) (r v : value) :
  view h r = Some (Success v) → isError r h = (Normal false, h).
Proof. intros Hr. by receiver Hr. Qed.

Lemma isError_Failure (h : heap) (r e : value) :
  view h r = Some (Failure e) → isError r h = (Normal true, h).
Proof. intros Hr. by receiver Hr. Qed.

Lemma getOrNull_Success (h : heap) (r v : value) :
  view h r = Some (Success v) → getOrNull r h = (Normal v, h).
Proof. intros Hr. receiver Hr. run. by rewrite Hl. Qed.

Lemma getOrNull_Failure (h : heap) (r e : value) :
  view h r = Some (Failure e) → getOrNull r h = (Normal VNull, h).
Proof. intros Hr. by receiver Hr. Qed.

Lemma errorOrNull_Success (h : heap) (r v : value) :
  view h r = Some (Success v) → errorOrNull r h = (Normal VNull, h).
Proof. intros Hr. by receiver Hr. Qed.

Lemma errorOrNull_Failure (h : heap) (r e : value) :
  view h r = Some (Failure e) → errorOrNull r h = (Normal e, h).
Proof. intros Hr. receiver Hr. run. by rewrite Hl. Qed.

Lemma getOrDefault_Success (h : heap) (r v d : value) :
  view h r = Some (Success v) → getOrDefault r d h = (Normal v, h).
Proof. intros Hr. receiver Hr. run. by rewrite Hl. Qed.

Lemma getOrDefault_Failure (h : heap) (r e d : value) :
  view h r = Some (Failure e) → getOrDefault r d h = (Normal d, h).
Proof. intros Hr. by receiver Hr. Qed.

(** ** Try *)

Lemma Try_Normal (fn : M value) (h h1 : heap) (x : value) :
  fn h = (Normal x, h1) →
  Try fn h = (Normal (VRef (fresh (dom h1))), <[fresh (dom h1) := InstOk x]> h1).
Proof. intros Hfn. unfold Try. run. by rewrite Hfn. Qed.

Lemma Try_Throw (fn : M value) (h h1 : heap) (e : value) :
  fn h = (Throw e, h1) →
  Try fn h = (Normal (VRef (fresh (dom h1))), <[fresh (dom h1) := InstErr e]> h1).
Proof. intros Hfn. unfold Try. run. by rewrite Hfn. Qed.

(** C1. Try(fn) runs fn once.  When fn returns x, Try returns a new Success
    holding x; when fn throws e, Try returns a new Failure whose payload is e
    itself.  In both cases the heap is the one fn left plus that one new
    Result, and Try completes normally: no fault escapes. *)
Theorem Try_captures (fn : M value) (h : heap) :
  match fn h with
  | (Normal x, h1) =>
      Try fn h = (Normal (VRef (fresh (dom h1))), <[fresh (dom h1) := InstOk x]> h1)
  | (Throw e, h1) =>
      Try fn h = (Normal (VRef (fresh (dom h1))), <[fresh (dom h1) := InstErr e]> h1)
  end
  ∧ ∃ r h', Try fn h = (Normal r, h') ∧ ∃ w, view h' r = Some w.
Proof.
  destruct (fn h) as [[x|e] h1] eqn:Hfn.
  - rewrite (Try_Normal fn h h1 x Hfn). split; [reflexivity|].
    eexists _, _. split; [reflexivity|]. exists (Success x). apply view_alloc_new.
  - rewrite (Try_Throw fn h h1 e Hfn). split; [reflexivity|].
    eexists _, _. split; [reflexivity|]. exists (Failure e). apply view_alloc_new.
Qed.

(** ** Accessors *)

(** C3. On a Success holding v: isOk is true, isError is false, getOrNull()
    is v, errorOrNull() is null and getOrDefault(d) is v whatever d is.  On
    a Failure holding e: isOk is false, isError is true, getOrNull() is null,
    errorOrNull() is e and getOrDefault(d) is d.  This holds of every Result
    in every heap, whatever else the heap holds, and none of the accessors
    changes the heap. *)
Theorem accessors_spec (h : heap) (r d : value) (w : result_view) :
  view h r = Some w →
  match w with
  | Success v =>
      isOk r h = (Normal true, h)
      ∧ isError r h = (Normal false, h)
      ∧ getOrNull r h = (Normal v, h)
      ∧ errorOrNull r h = (Normal VNull, h)
      ∧ getOrDefault r d h = (Normal v, h)
  | Failure e =>
      isOk r h = (Normal false, h)
      ∧ isError r h = (Normal true, h)
      ∧ getOrNull r h = (Normal VNull, h)
      ∧ errorOrNull r h = (Normal e, h)
      ∧ getOrDefault r d h = (Normal d, h)
  end.
Proof.
  intros Hr. destruct w as [v|e].
  - eauto 10 using isOk_Success, isError_Success, getOrNull_Success,
      errorOrNull_Success, getOrDefault_Success.
  - eauto 10 using isOk_Failure, isError_Failure, getOrNull_Failure,
      errorOrNull_Failure, getOrDefault_Failure.
Qed.

Lemma accessors_spec_witness :
  (let h : heap := {[ 1%positive := InstOk (VNum 2) ]} in
   isOk (VRef 1) h = (Normal true, h)
   ∧ isError (VRef 1) h = (Normal false, h)
   ∧ getOrNull (VRef 1) h = (Normal (VNum 2), h)
   ∧ errorOrNull (VRef 1) h = (Normal VNull, h)
   ∧ getOrDefault (VRef 1) (VNum 1) h = (Normal (VNum 2), h))
  ∧ (let h : heap := {[ 1%positive := InstErr (VStr "Division by zero") ]} in
     isOk (VRef 1) h = (Normal false, h)
     ∧ isError (VRef 1) h = (Normal true, h)
     ∧ getOrNull (VRef 1) h = (Normal VNull, h)
     ∧ errorOrNull (VRef 1) h = (Normal (VStr "Division by zero"), h)
     ∧ getOrDefault (VRef 1) (VNum 1) h = (Normal (VNum 1), h)).
Proof.
  split; intros h.
  - apply (accessors_spec h (VRef 1) (VNum 1) (Success (VNum 2))). reflexivity.
  - apply (accessors_spec h (VRef 1) (VNum 1) (Failure (VStr "Division by zero"))).
    reflexivity.
Defined.

(** C4. getOrThrow() on a Success holding v returns v and raises nothing;
    on a Failure holding e it raises e itself: the thrown value is the stored
    payload (the same reference when it is an object), and no object is
    created to wrap it, the heap is unchanged.  This holds of every Result in
    every heap, whatever else the heap holds. *)
Theorem getOrThrow_spec (h : heap) (r : value) (w : result_view) :
  view h r = Some w →
  match w with
  | Success v => getOrThrow r h = (Normal v, h)
  | Failure e => getOrThrow r h = (Throw e, h)
  end.
Proof.
  intros Hr. destruct w as [v|e].
  - receiver Hr. run. by rewrite Hl.
  - receiver Hr. run. by rewrite Hl.
Qed.

Lemma getOrThrow_spec_witness :
  (let h : heap := {[ 1%positive := InstOk (VNum 2) ]} in
   getOrThrow (VRef 1) h = (Normal (VNum 2), h))
  ∧ (let h : heap := {[ 1%positive := InstError "boom"; 2%positive := InstErr (VRef 1) ]} in
     getOrThrow (VRef 2) h = (Throw (VRef 1), h))
  ∧ (let h : heap := {[ 1%positive := InstErr (VStr "Division by zero") ]} in
     getOrThrow (VRef 1) h = (Throw (VStr "Division by zero"), h)).
Proof.
  split; [|split]; intros h.
  - apply (getOrThrow_spec h (VRef 1) (Success (VNum 2))). reflexivity.
  - apply (getOrThrow_spec h (VRef 2) (Failure (VRef 1))). reflexivity.
  - apply (getOrThrow_spec h (VRef 1) (Failure (VStr "Division by zero"))). reflexivity.
Defined.

(** ** map, mapError and fold *)

Lemma map_Success (h : heap) (r v : value) (f : value → M value) :
  view h r = Some (Success v) →
  map r f h =
    match f v h with
    | (Normal y, h1) => (Normal (VRef (fresh (dom h1))), <[fresh (dom h1) := InstOk y]> h1)
    | (Throw e, h1) => (Throw e, h1)
    end.
Proof.
  intros Hr. receiver Hr. run. rewrite Hl. by destruct (f v h) as [[y|e] h1].
Qed.

Lemma mapError_Failure (h : heap) (r e : value) (f : value → M value) :
  view h r = Some (Failure e) →
  mapError r f h =
    match f e h with
    | (Normal y, h1) => (Normal (VRef (fresh (dom h1))), <[fresh (dom h1) := InstErr y]> h1)
    | (Throw x, h1) => (Throw x, h1)
    end.
Proof.
  intros Hr. receiver Hr. run. rewrite Hl. by destruct (f e h) as [[y|x] h1].
Qed.

Lemma map_Failure (h : heap) (r e : value) (f : value → M value) :
  view h r = Some (Failure e) → map r f h = (Normal r, h).
Proof. intros Hr. by receiver Hr. Qed.

Lemma mapError_Success (h : heap) (r v : value) (f : value → M value) :
  view h r = Some (Success v) → mapError r f h = (Normal r, h).
Proof. intros Hr. by receiver Hr. Qed.



(** C7. fold on a Success holding v is okFn v, on a Failure holding e it is
    errFn e, for every pair of callbacks and every Result in every heap; and
    Ok(42).map(x => x * 2).fold(v => v, e => -1) is 84 in every heap. *)
Theorem fold_spec (h : heap) (r : value) (w : result_view) (okFn errFn : value → M value) :
  view h r = Some w →
  match w with
  | Success v => fold r okFn errFn h = okFn v h
  | Failure e => fold r okFn errFn h = errFn e h
  end
  ∧ ∀ h0 : heap,
      fst ((r0 ← Ok (VNum 42); r' ← map r0 times_two;
            fold r' (pure_fn id) (pure_fn (λ _, VNum (-1)))) h0) = Normal (VNum 84).
Proof.
  intros Hr. split.
  - destruct w as [v|e]; receiver Hr; run; by rewrite Hl.
  - intros h0. unfold mbind at 1, M_bind. unfold Ok at 1. rewrite alloc_run.
    unfold mbind at 1, M_bind.
    rewrite (map_Success _ _ (VNum 42)) by apply view_alloc_new.
    unfold times_two, pure_fn at 1. unfold mret at 1, M_ret.
    match goal with |- context [fold (VRef ?l) _ _ ?hh] =>
      assert (Hv : view hh (VRef l) = Some (Success (VNum 84))) by apply view_alloc_new
    end.
    receiver Hv. run. by rewrite Hl.
Qed.

Lemma fold_spec_witness :
  (let h : heap := {[ 1%positive := InstOk (VNum 2) ]} in
   fold (VRef 1) times_two (λ x, throw x) h = (Normal (VNum 4), h))
  ∧ (let h : heap := {[ 1%positive := InstErr (VStr "Division by zero") ]} in
     fold (VRef 1) (λ x, throw x) (pure_fn (λ _, VNum (-1))) h = (Normal (VNum (-1)), h))
  ∧ fst ((r0 ← Ok (VNum 42); r' ← map r0 times_two;
          fold r' (pure_fn id) (pure_fn (λ _, VNum (-1)))) ∅) = Normal (VNum 84).
Proof.
  split; [|split].
  - intros h.
    exact (proj1 (fold_spec h (VRef 1) (Success (VNum 2)) times_two (λ x, throw x) eq_refl)).
  - intros h.
    exact (proj1 (fold_spec h (VRef 1) (Failure (VStr "Division by zero"))
                    (λ x, throw x) (pure_fn (λ _, VNum (-1))) eq_refl)).
  - exact (proj2 (fold_spec {[ 1%positive := InstOk (VNum 2) ]} (VRef 1) (Success (VNum 2))
                    times_two (λ x, throw x) eq_refl) ∅).
Defined.

(** C8. When the callback f raises e on the payload of a Success, map lets e
    through: the call completes abruptly with e, in the heap f left, and no
    Result is created.  Try around the same callback turns e into a Failure. *)
Theorem map_propagates (h h1 : heap) (r v e : value) (f : value → M value) :
  view h r = Some (Success v) →
  f v h = (Throw e, h1) →
  map r f h = (Throw e, h1)
  ∧ Try (f v) h = (Normal (VRef (fresh (dom h1))), <[fresh (dom h1) := InstErr e]> h1).
Proof.
  intros Hr Hf. split.
  - by rewrite (map_Success h r v f Hr), Hf.
  - by apply Try_Throw.
Qed.

Lemma map_propagates_witness :
  let h : heap := {[ 1%positive := InstOk (VNum 2) ]} in
  map (VRef 1) (λ x, throw (VStr "bad")) h = (Throw (VStr "bad"), h)
  ∧ Try (throw (VStr "bad")) h
    = (Normal (VRef (fresh (dom h))), <[fresh (dom h) := InstErr (VStr "bad")]> h).
Proof.
  intros h.
  apply (map_propagates h h (VRef 1) (VNum 2) (VStr "bad") (λ x, throw (VStr "bad")));
    reflexivity.
Defined.

(** C9 as stated fails: map on a Failure (and mapError on a Success) returns
    the receiver itself, an object that was in the heap before the call, not
    a new Result. *)
Lemma map_on_Failure_returns_receiver :
  map (VRef 1) (pure_fn id) ({[ 1%positive := InstErr (VStr "e") ]} : heap)
    = (Normal (VRef 1), {[ 1%positive := InstErr (VStr "e") ]})
  ∧ ({[ 1%positive := InstErr (VStr "e") ]} : heap) !! 1%positive = Some (InstErr (VStr "e"))
  ∧ mapError (VRef 1) (pure_fn id) ({[ 1%positive := InstOk (VStr "v") ]} : heap)
    = (Normal (VRef 1), {[ 1%positive := InstOk (VStr "v") ]}).
Proof. repeat split. Qed.

(** C9, amended.  map and mapError write to no existing object.  On the
    matching variant (map on a Success, mapError on a Failure) the heap after
    the call is the heap the callback left plus one new Result, stored at a
    location unused until then, so the receiver has the tag and payload the
    callback left it with; when the callback raises, the heap is the one it
    left.  On the other variant the call returns the receiver itself, runs
    no callback and leaves the heap as it was. *)
Theorem map_frame (h : heap) (r : value) (f : value → M value) (w : result_view) :
  view h r = Some w →
  match w with
  | Success v =>
      match f v h with
      | (Normal y, h1) =>
          ∃ l, map r f h = (Normal (VRef l), <[l := InstOk y]> h1)
               ∧ h1 !! l = None
               ∧ (view h1 r = Some w → view (<[l := InstOk y]> h1) r = Some w)
      | (Throw x, h1) => map r f h = (Throw x, h1)
      end
      ∧ mapError r f h = (Normal r, h)
  | Failure e =>
      map r f h = (Normal r, h)
      ∧ match f e h with
        | (Normal y, h1) =>
            ∃ l, mapError r f h = (Normal (VRef l), <[l := InstErr y]> h1)
                 ∧ h1 !! l = None
                 ∧ (view h1 r = Some w → view (<[l := InstErr y]> h1) r = Some w)
        | (Throw x, h1) => mapError r f h = (Throw x, h1)
        end
  end.
Proof.
  intros Hr. destruct w as [v|e].
  - split; [|by apply mapError_Success with v].
    rewrite (map_Success h r v f Hr). destruct (f v h) as [[y|x] h1]; [|done].
    exists (fresh (dom h1)). split; [done|]. split; [apply fresh_lookup|].
    apply view_alloc_old.
  - split; [by apply map_Failure with e|].
    rewrite (mapError_Failure h r e f Hr). destruct (f e h) as [[y|x] h1]; [|done].
    exists (fresh (dom h1)). split; [done|]. split; [apply fresh_lookup|].
    apply view_alloc_old.
Qed.

Lemma map_frame_witness :
  (let h : heap := {[ 1%positive := InstOk (VNum 42) ]} in
   (∃ l, map (VRef 1) times_two h = (Normal (VRef l), <[l := InstOk (VNum 84)]> h)
         ∧ h !! l = None
         ∧ (view h (VRef 1) = Some (Success (VNum 42)) →
            view (<[l := InstOk (VNum 84)]> h) (VRef 1) = Some (Success (VNum 42))))
   ∧ mapError (VRef 1) times_two h = (Normal (VRef 1), h))
  ∧ (let h : heap := {[ 1%positive := InstErr (VNum 21) ]} in
     map (VRef 1) times_two h = (Normal (VRef 1), h)
     ∧ ∃ l, mapError (VRef 1) times_two h = (Normal (VRef l), <[l := InstErr (VNum 42)]> h)
            ∧ h !! l = None
            ∧ (view h (VRef 1) = Some (Failure (VNum 21)) →
               view (<[l := InstErr (VNum 42)]> h) (VRef 1) = Some (Failure (VNum 21)))).
Proof.
  split; intros h.
  - apply (map_frame h (VRef 1) times_two (Success (VNum 42))). reflexivity.
  - apply (map_frame h (VRef 1) times_two (Failure (VNum 21))). reflexivity.
Defined.

(** The field value of an OkResult is public and not readonly: a callback
    that assigns it changes the source, which map then leaves as the callback
    left it. *)
Example map_callback_assigns_value :
  let h : heap := {[ 1%positive := InstOk (VNum 42) ]} in
  let f : value → M value := λ x, _ ← assign_value (VRef 1) (VNum 9); mret x in
  ∃ h', map (VRef 1) f h = (Normal (VRef 2), h')
        ∧ view h' (VRef 1) = Some (Success (VNum 9))
        ∧ view h' (VRef 2) = Some (Success (VNum 42)).
Proof. eexists. repeat split. Qed.

(** ** The serializer never reaches its recursion bound *)

Lemma stack_bounded (h : heap) (stack : list loc) :
  NoDup stack → (∀ l, l ∈ stack → l ∈ dom h) → (length stack ≤ size h)%nat.
Proof.
  intros Hnd Hsub. rewrite <- (size_dom (D := gset loc) h).
  apply (submseteq_length stack (elements (dom h))).
  apply NoDup_submseteq; [done|].
  intros l Hl. apply elem_of_elements. auto.
Qed.

Lemma serialize_members_fuel (go : value → ser (option string)) (props : list (string * value)) :
  (∀ v, go v ≠ OutOfFuel) → serialize_members go props ≠ OutOfFuel.
Proof.
  intros Hgo. induction props as [|[k v] rest IH]; simpl; [done|].
  specialize (Hgo v). destruct (go v); [|done|done].
  by destruct (serialize_members go rest).
Qed.

Lemma serialize_elements_fuel (go : value → ser (option string)) (elems : list value) :
  (∀ v, go v ≠ OutOfFuel) → serialize_elements go elems ≠ OutOfFuel.
Proof.
  intros Hgo. induction elems as [|v rest IH]; simpl; [done|].
  specialize (Hgo v). destruct (go v); [|done|done].
  by destruct (serialize_elements go rest).
Qed.

Lemma SerializeJSONProperty_fuel_stack (h : heap) (fuel : nat) :
  ∀ (stack : list loc) (indent : string) (v : value),
    NoDup stack → (∀ l, l ∈ stack → l ∈ dom h) → (size h < fuel + length stack)%nat →
    SerializeJSONProperty fuel h stack indent v ≠ OutOfFuel.
Proof.
  induction fuel as [|fuel IH]; intros stack indent v Hnd Hsub Hlt.
  - pose proof (stack_bounded h stack Hnd Hsub). simpl in Hlt. lia.
  - destruct v as [| |[]| | |l]; simpl; try done.
    case_decide as Hin; [done|].
    destruct (h !! l) as [o|] eqn:Hl; [|done].
    assert (Hgo : ∀ v', SerializeJSONProperty fuel h (l :: stack) (indent ++ gap) v' ≠ OutOfFuel).
    { intros v'. apply IH.
      - by apply NoDup_cons.
      - intros l' [->|Hl']%elem_of_cons; [|by auto].
        apply elem_of_dom. by exists o.
      - simpl. lia. }
    destruct o as [v0|e0|m|props|elems|st]; cbv beta iota zeta.
    1-4, 6: match goal with |- context [serialize_members ?go ?ps] =>
              pose proof (serialize_members_fuel go ps Hgo);
              by destruct (serialize_members go ps) end.
    pose proof (serialize_elements_fuel _ elems Hgo).
    by destruct (serialize_elements _ elems).
Qed.

Lemma SerializeJSONProperty_fuel (h : heap) (v : value) :
  SerializeJSONProperty (S (size h)) h [] EmptyString v ≠ OutOfFuel.
Proof.
  apply SerializeJSONProperty_fuel_stack.
  - constructor.
  - intros l Hl. by apply elem_of_nil in Hl.
  - simpl. lia.
Qed.

(** [JSON.stringify] either returns, leaving the heap as it is, or raises a
    new TypeError for a cyclic structure. *)
Lemma JSON_stringify_total (h : heap) (v : value) :
  (∃ o, SerializeJSONProperty (S (size h)) h [] EmptyString v = Ser o
        ∧ JSON_stringify v h = (Normal o, h))
  ∨ (SerializeJSONProperty (S (size h)) h [] EmptyString v = Cyclic
     ∧ JSON_stringify v h
       = (Throw (VRef (fresh (dom h))),
          <[fresh (dom h) := InstError "Converting circular structure to JSON"]> h)).
Proof.
  pose proof (SerializeJSONProperty_fuel h v) as Hf. unfold JSON_stringify.
  destruct (SerializeJSONProperty (S (size h)) h [] EmptyString v) as [o| |].
  - left. by exists o.
  - right. done.
  - done.
Qed.

(** ** toString *)

Lemma resultToString_Success (h : heap) (r v : value) :
  view h r = Some (Success v) →
  resultToString r h =
    (s ← JSON_stringify (if nullish v then VNull else v);
     mret ("Ok(" ++ template_string s ++ ")")) h.
Proof.
  intros Hr. unfold resultToString.
  rewrite (bind_Normal _ _ _ _ _ (isOk_Success h r v Hr)).
  rewrite (bind_Normal _ _ _ _ _ (getOrNull_Success h r v Hr)).
  destruct (nullish v); [|reflexivity].
  by rewrite (bind_Normal _ _ _ _ _ (errorOrNull_Success h r v Hr)).
Qed.

Lemma resultToString_Failure (h : heap) (r e : value) :
  view h r = Some (Failure e) →
  resultToString r h =
    (s ← JSON_stringify e; mret ("Err(" ++ template_string s ++ ")")) h.
Proof.
  intros Hr. unfold resultToString.
  rewrite (bind_Normal _ _ _ _ _ (isOk_Failure h r e Hr)).
  rewrite (bind_Normal _ _ _ _ _ (getOrNull_Failure h r e Hr)). simpl.
  by rewrite (bind_Normal _ _ _ _ _ (errorOrNull_Failure h r e Hr)).
Qed.

Lemma toString_Failure (h : heap) (r e : value) :
  view h r = Some (Failure e) →
  toString r h =
    if is_Error h e
    then (m ← message_of e; mret ("Err(" ++ m ++ ")")) h
    else resultToString r h.
Proof.
  intros Hr. pose proof Hr as Hr'. apply view_Failure in Hr' as (l & -> & Hl).
  unfold toString. rewrite (dispatch_Failure _ _ _ _ _ Hl).
  unfold ErrImpl_toString, instanceof_Error. run. rewrite Hl.
  by destruct (is_Error h e).
Qed.

(** C6 as stated fails: the payload [{ message: "x" }] exposes a message
    attribute, yet a Failure holding it is rendered through the serializer,
    not as Err(x). *)
Lemma toString_plain_object_with_message :
  let h : heap := {[ 1%positive := PlainObject [("message", VStr "x")];
                     2%positive := InstErr (VRef 1) ]} in
  view h (VRef 2) = Some (Failure (VRef 1))
  ∧ message_attribute h (VRef 1) = Some "x"
  ∧ toString (VRef 2) h
    = (Normal ("Err({" ++ newline ++ "  " ++ dquote ++ "message" ++ dquote ++ ": "
               ++ dquote ++ "x" ++ dquote ++ newline ++ "})"), h)
  ∧ fst (toString (VRef 2) h) ≠ Normal "Err(x)".
Proof.
  intros h. split; [reflexivity|]. split; [reflexivity|]. split.
  - vm_compute. reflexivity.
  - vm_compute. discriminate.
Qed.

(** C6, amended.  toString() on a Success whose payload v is not undefined
    is Ok(...) around the serialization of v.  On a Failure whose payload is
    an instance of Error it is Err(...) around that error's message; on a
    Failure with any other payload e, a plain object with a message field
    included, it is Err(...) around the serialization of e.  Where the
    serializer raises (a cyclic payload), so does toString.  In particular
    Try(() => { throw new Error(boom) }).toString() is Err(boom). *)
Theorem toString_spec (h : heap) (r : value) (w : result_view) :
  view h r = Some w →
  match w with
  | Success v =>
      v ≠ VUndefined →
      toString r h = (s ← JSON_stringify v; mret ("Ok(" ++ template_string s ++ ")")) h
  | Failure e =>
      (∀ l m, e = VRef l → h !! l = Some (InstError m) →
              toString r h = (Normal ("Err(" ++ m ++ ")"), h))
      ∧ (is_Error h e = false →
         toString r h = (s ← JSON_stringify e; mret ("Err(" ++ template_string s ++ ")")) h)
  end
  ∧ ∀ h0 : heap,
      fst ((r' ← Try (e ← new_Error "boom"; throw e : M value); toString r') h0)
      = Normal "Err(boom)".
Proof.
  intros Hr. split.
  - destruct w as [v|e].
    + intros Hv. pose proof Hr as Hr'. apply view_Success in Hr' as (l & -> & Hl).
      unfold toString. rewrite (dispatch_Success _ _ _ _ _ Hl). unfold OkImpl_toString.
      rewrite (resultToString_Success h _ v Hr). by destruct v.
    + rewrite (toString_Failure h r e Hr). split.
      * intros l m -> Hl. unfold is_Error, message_of. run. by rewrite Hl.
      * intros ->. by apply resultToString_Failure.
  - intros h0.
    set (h1 := <[fresh (dom h0) := InstError "boom"]> h0).
    set (h2 := <[fresh (dom h1) := InstErr (VRef (fresh (dom h0)))]> h1).
    assert (Hfn : (e ← new_Error "boom"; throw e : M value) h0
                  = (Throw (VRef (fresh (dom h0))), h1)) by reflexivity.
    rewrite (bind_Normal _ _ _ _ _ (Try_Throw _ _ _ _ Hfn)). fold h2.
    assert (Hr2 : view h2 (VRef (fresh (dom h1))) = Some (Failure (VRef (fresh (dom h0)))))
      by apply view_alloc_new.
    assert (He : h2 !! fresh (dom h0) = Some (InstError "boom")).
    { apply lookup_alloc_old. apply lookup_insert_eq. }
    rewrite (toString_Failure h2 _ _ Hr2). unfold is_Error, message_of. run.
    by rewrite He.
Qed.

Lemma toString_spec_witness :
  (let h : heap := {[ 1%positive := InstOk (VNum 2) ]} in
   toString (VRef 1) h = (Normal "Ok(2)", h))
  ∧ (let h : heap := {[ 1%positive := InstError "boom"; 2%positive := InstErr (VRef 1) ]} in
     toString (VRef 2) h = (Normal "Err(boom)", h))
  ∧ (let h : heap := {[ 1%positive := InstErr (VStr "Division by zero") ]} in
     toString (VRef 1) h
     = (Normal ("Err(" ++ dquote ++ "Division by zero" ++ dquote ++ ")"), h)).
Proof.
  split; [|split]; intros h.
  - destruct (toString_spec h (VRef 1) (Success (VNum 2))) as [H _]; [reflexivity|].
    rewrite H; [reflexivity | discriminate].
  - destruct (toString_spec h (VRef 2) (Failure (VRef 1))) as [[H _] _]; [reflexivity|].
    exact (H 1%positive "boom" eq_refl eq_refl).
  - destruct (toString_spec h (VRef 1) (Failure (VStr "Division by zero"))) as [[_ H] _];
      [reflexivity|].
    rewrite H; reflexivity.
Defined.

(** A Success holding undefined: [getOrNull() ?? errorOrNull()] passes null
    to the serializer, and the rendering is Ok(null). *)
Example toString_Ok_undefined :
  let h : heap := {[ 1%positive := InstOk VUndefined ]} in
  toString (VRef 1) h = (Normal "Ok(null)", h)
  ∧ JSON_stringify VUndefined h = (Normal None, h).
Proof. split; reflexivity. Qed.

Lemma is_Error_alloc_InstErr (h : heap) (e x : value) :
  is_Error h x = false → is_Error (<[fresh (dom h) := InstErr e]> h) x = false.
Proof.
  destruct x as [| | | | |l]; simpl; try done.
  destruct (decide (l = fresh (dom h))) as [->|Hne].
  - by rewrite lookup_insert_eq.
  - by rewrite lookup_insert_ne.
Qed.

(** C10. When fn throws a value e that is no instance of Error (a string, a
    plain object with a message field, ...), Try returns a new Failure whose
    payload is e itself, neither converted nor wrapped, and toString() on
    that Failure takes the serializer path: it is resultToString, Err(...)
    around the serialization of e. *)
Theorem Try_raw_throw (fn : M value) (h h1 : heap) (e : value) :
  fn h = (Throw e, h1) →
  is_Error h1 e = false →
  let r := VRef (fresh (dom h1)) in
  let h' := <[fresh (dom h1) := InstErr e]> h1 in
  Try fn h = (Normal r, h')
  ∧ view h' r = Some (Failure e)
  ∧ toString r h' = resultToString r h'
  ∧ toString r h' = (s ← JSON_stringify e; mret ("Err(" ++ template_string s ++ ")")) h'.
Proof.
  intros Hfn He r h'.
  assert (Hr : view h' r = Some (Failure e)) by apply view_alloc_new.
  assert (He' : is_Error h' e = false) by by apply is_Error_alloc_InstErr.
  split; [by apply Try_Throw|]. split; [done|].
  rewrite (toString_Failure h' r e Hr), He'. split; [done|].
  by apply resultToString_Failure.
Qed.

Lemma Try_raw_throw_witness :
  (let h' : heap := {[ 1%positive := InstErr (VStr "boom") ]} in
   Try (throw (VStr "boom")) ∅ = (Normal (VRef 1), h')
   ∧ toString (VRef 1) h' = (Normal ("Err(" ++ dquote ++ "boom" ++ dquote ++ ")"), h'))
  ∧ (let h1 : heap := {[ 1%positive := PlainObject [("message", VStr "x")] ]} in
     let h' : heap := <[2%positive := InstErr (VRef 1)]> h1 in
     Try (o ← alloc (PlainObject [("message", VStr "x")]); throw o : M value) ∅
       = (Normal (VRef 2), h')
     ∧ toString (VRef 2) h'
       = (Normal ("Err({" ++ newline ++ "  " ++ dquote ++ "message" ++ dquote ++ ": "
                  ++ dquote ++ "x" ++ dquote ++ newline ++ "})"), h')).
Proof.
  split.
  - destruct (Try_raw_throw (throw (VStr "boom")) ∅ ∅ (VStr "boom"))
      as (H1 & _ & _ & H2); [reflexivity | reflexivity |].
    split; [exact H1 | exact H2].
  - destruct (Try_raw_throw (o ← alloc (PlainObject [("message", VStr "x")]); throw o : M value)
                ∅ {[ 1%positive := PlainObject [("message", VStr "x")] ]} (VRef 1))
      as (H1 & _ & _ & H2); [reflexivity | reflexivity |].
    split; [exact H1 | exact H2].
Defined.

(** ** TryAsync *)

Lemma sync_run {A : Type} (m : M A) (h h' : heap) (c : completion A) :
  m h = (c, h') → sync m h = Done c h'.
Proof. intros Hm. unfold sync. by rewrite Hm. Qed.

Lemma TryAsync_body_Throw (fn : M value) (h0 h1 : heap) (e : value) :
  fn h0 = (Throw e, h1) →
  TryAsync_body fn h0
  = Done (Normal (VRef (fresh (dom h1)))) (<[fresh (dom h1) := InstErr e]> h1).
Proof.
  intros Hfn. unfold TryAsync_body, async_try_catch.
  unfold mbind at 1. unfold Async_bind at 1. by rewrite (sync_run fn h0 h1 _ Hfn).
Qed.

Lemma TryAsync_body_Normal (fn : M value) (h0 h1 : heap) (p : value) :
  fn h0 = (Normal p, h1) →
  TryAsync_body fn h0 = Await p h1 TryAsync_continuation.
Proof.
  intros Hfn. unfold TryAsync_body, async_try_catch.
  unfold mbind at 1. unfold Async_bind at 1. by rewrite (sync_run fn h0 h1 _ Hfn).
Qed.

Lemma TryAsync_continuation_Normal (x : value) (h : heap) :
  TryAsync_continuation (Normal x) h
  = Done (Normal (VRef (fresh (dom h)))) (<[fresh (dom h) := InstOk x]> h).
Proof. reflexivity. Qed.

Lemma TryAsync_continuation_Throw (e : value) (h : heap) :
  TryAsync_continuation (Throw e) h
  = Done (Normal (VRef (fresh (dom h)))) (<[fresh (dom h) := InstErr e]> h).
Proof. reflexivity. Qed.

(** Settling the promise [q] of the call with a Result just stored at a new
    location: the promise is fulfilled with it and the Result is intact. *)
Lemma settle_new_result (h : heap) (q : loc) (o : object) (st : promise_state) :
  h !! q = Some (PromiseObject st) →
  let r := fresh (dom h) in
  let h' := settle q (Normal (VRef r)) (<[r := o]> h) in
  h' !! q = Some (PromiseObject (Fulfilled (VRef r))) ∧ h' !! r = Some o.
Proof.
  intros Hq r h'. unfold h', settle. split.
  - apply lookup_insert_eq.
  - rewrite lookup_insert_ne.
    + apply lookup_insert_eq.
    + intros ->. unfold r in Hq. by rewrite fresh_lookup in Hq.
Qed.

(** C2. TryAsync(fn) returns a promise q at once.  When fn throws e before
    returning, the body catches it and q is already fulfilled with a Failure
    holding e.  When fn returns p, the call is suspended on p; resumed in a
    later heap, it stays suspended while p is pending, fulfils q with a
    Success holding x when p is fulfilled with x (or is the plain value x),
    and fulfils q with a Failure holding e when p is rejected with e.  In no
    case is q rejected: whoever awaits q receives a Result. *)
Theorem TryAsync_spec (fn : M value) (h : heap) :
  let q := fresh (dom h) in
  match fn (<[q := PromiseObject Pending]> h) with
  | (Throw e, h1) =>
      h1 !! q = Some (PromiseObject Pending) →
      ∃ r h', TryAsync fn h = (VRef q, Finished, h')
              ∧ h' !! q = Some (PromiseObject (Fulfilled r))
              ∧ view h' r = Some (Failure e)
  | (Normal p, h1) =>
      ∃ k, TryAsync fn h = (VRef q, Suspended q p k, h1)
           ∧ ∀ h2 : heap,
               h2 !! q = Some (PromiseObject Pending) →
               match await_outcome h2 p with
               | None => resume (Suspended q p k) h2 = (Suspended q p k, h2)
               | Some (Normal x) =>
                   ∃ r h', resume (Suspended q p k) h2 = (Finished, h')
                           ∧ h' !! q = Some (PromiseObject (Fulfilled r))
                           ∧ view h' r = Some (Success x)
               | Some (Throw e) =>
                   ∃ r h', resume (Suspended q p k) h2 = (Finished, h')
                           ∧ h' !! q = Some (PromiseObject (Fulfilled r))
                           ∧ view h' r = Some (Failure e)
               end
  end.
Proof.
  intros q. unfold TryAsync, async_call. fold q.
  destruct (fn (<[q := PromiseObject Pending]> h)) as [[p|e] h1] eqn:Hfn.
  - rewrite (TryAsync_body_Normal fn _ h1 p Hfn). simpl.
    exists TryAsync_continuation. split; [reflexivity|].
    intros h2 Hq. destruct (await_outcome h2 p) as [[x|e]|]; [| |reflexivity].
    + rewrite TryAsync_continuation_Normal. simpl.
      destruct (settle_new_result h2 q (InstOk x) Pending Hq) as [H1 H2].
      eexists _, _. split; [reflexivity|]. split; [exact H1|]. simpl. by rewrite H2.
    + rewrite TryAsync_continuation_Throw. simpl.
      destruct (settle_new_result h2 q (InstErr e) Pending Hq) as [H1 H2].
      eexists _, _. split; [reflexivity|]. split; [exact H1|]. simpl. by rewrite H2.
  - intros Hq. rewrite (TryAsync_body_Throw fn _ h1 e Hfn). simpl.
    destruct (settle_new_result h1 q (InstErr e) Pending Hq) as [H1 H2].
    eexists _, _. split; [reflexivity|]. split; [exact H1|]. simpl. by rewrite H2.
Qed.

Lemma TryAsync_spec_witness :
  let fn : M value := alloc (PromiseObject Pending) in
  let h1 : heap := {[ 1%positive := PromiseObject Pending; 2%positive := PromiseObject Pending ]} in
  let h2 : heap := <[2%positive := PromiseObject (Fulfilled (VNum 7))]> h1 in
  let h3 : heap := <[2%positive := PromiseObject (Rejected (VStr "no"))]> h1 in
  ∃ k, TryAsync fn ∅ = (VRef 1, Suspended 1 (VRef 2) k, h1)
       ∧ resume (Suspended 1 (VRef 2) k) h1 = (Suspended 1 (VRef 2) k, h1)
       ∧ (∃ r h', resume (Suspended 1 (VRef 2) k) h2 = (Finished, h')
                  ∧ h' !! 1%positive = Some (PromiseObject (Fulfilled r))
                  ∧ view h' r = Some (Success (VNum 7)))
       ∧ (∃ r h', resume (Suspended 1 (VRef 2) k) h3 = (Finished, h')
                  ∧ h' !! 1%positive = Some (PromiseObject (Fulfilled r))
                  ∧ view h' r = Some (Failure (VStr "no"))).
Proof.
  intros fn h1 h2 h3.
  pose proof (TryAsync_spec fn ∅) as H. hnf in H.
  destruct H as (k & Hk & Hres). exists k. split; [exact Hk|].
  split; [exact (Hres h1 eq_refl) | split].
  - exact (Hres h2 eq_refl).
  - exact (Hres h3 eq_refl).
Defined.

(** A fault thrown by fn before it returns: the promise is fulfilled, with a
    Failure, when TryAsync returns. *)
Example TryAsync_sync_throw :
  ∃ h', TryAsync (throw (VStr "bad")) ∅ = (VRef 1, Finished, h')
        ∧ h' !! 1%positive = Some (PromiseObject (Fulfilled (VRef 2)))
        ∧ view h' (VRef 2) = Some (Failure (VStr "bad")).
Proof. eexists. split; [reflexivity|]. split; reflexivity. Qed.

(** * Further properties of the library *)

(** ** The remaining members, one at a time *)

Lemma getOrThrow_Success (h : heap) (r v : value) :
  view h r = Some (Success v) → getOrThrow r h = (Normal v, h).
Proof. intros Hr. receiver Hr. run. by rewrite Hl. Qed.

Lemma getOrThrow_Failure (h : heap) (r e : value) :
  view h r = Some (Failure e) → getOrThrow r h = (Throw e, h).
Proof. intros Hr. receiver Hr. run. by rewrite Hl. Qed.

Lemma fold_Success (h : heap) (r v : value) (okFn errFn : value → M value) :
  view h r = Some (Success v) → fold r okFn errFn h = okFn v h.
Proof. intros Hr. receiver Hr. run. by rewrite Hl. Qed.

Lemma fold_Failure (h : heap) (r e : value) (okFn errFn : value → M value) :
  view h r = Some (Failure e) → fold r okFn errFn h = errFn e h.
Proof. intros Hr. receiver Hr. run. by rewrite Hl. Qed.

Lemma onOk_Success (h : heap) (r v : value) (fn : value → M value) :
  view h r = Some (Success v) → onOk r fn h = (_ ← fn v; mret VUndefined) h.
Proof.
  intros Hr. apply view_Success in Hr as (l & -> & Hl).
  unfold onOk. rewrite (dispatch_Success _ _ _ _ _ Hl).
  unfold OkImpl.onOk, OkImpl.this_value. unfold mbind at 1, M_bind. by rewrite Hl.
Qed.

Lemma onOk_Failure (h : heap) (r e : value) (fn : value → M value) :
  view h r = Some (Failure e) → onOk r fn h = (Normal VUndefined, h).
Proof.
  intros Hr. apply view_Failure in Hr as (l & -> & Hl).
  unfold onOk. by rewrite (dispatch_Failure _ _ _ _ _ Hl).
Qed.

Lemma onError_Success (h : heap) (r v : value) (fn : value → M value) :
  view h r = Some (Success v) → onError r fn h = (Normal VUndefined, h).
Proof.
  intros Hr. apply view_Success in Hr as (l & -> & Hl).
  unfold onError. by rewrite (dispatch_Success _ _ _ _ _ Hl).
Qed.

Lemma onError_Failure (h : heap) (r e : value) (fn : value → M value) :
  view h r = Some (Failure e) → onError r fn h = (_ ← fn e; mret VUndefined) h.
Proof.
  intros Hr. apply view_Failure in Hr as (l & -> & Hl).
  unfold onError. rewrite (dispatch_Failure _ _ _ _ _ Hl).
  unfold ErrImpl.onError, ErrImpl.this_error. unfold mbind at 1, M_bind. by rewrite Hl.
Qed.

(** ** onOk and onError *)

(** X1. Of the two handlers exactly one fires, on every Result in every
    heap.  On a Success holding v, onOk(f) does what f(v) does (its effects
    and its faults) and returns undefined, and onError(g) returns undefined
    without calling g or touching the heap; on a Failure holding e it is the
    other way round. *)
Theorem onOk_onError_exclusive (h : heap) (r : value) (w : result_view)
    (f g : value → M value) :
  view h r = Some w →
  match w with
  | Success v =>
      onOk r f h = (_ ← f v; mret VUndefined) h ∧ onError r g h = (Normal VUndefined, h)
  | Failure e =>
      onError r g h = (_ ← g e; mret VUndefined) h ∧ onOk r f h = (Normal VUndefined, h)
  end.
Proof.
  intros Hr. destruct w as [v|e]; split.
  - by apply onOk_Success.
  - by apply onError_Success with v.
  - by apply onError_Failure.
  - by apply onOk_Failure with e.
Qed.

Lemma onOk_onError_exclusive_witness :
  let f : value → M value := λ x, assign_value (VRef 1) (VNum 9) in
  let g : value → M value := λ x, throw x in
  (let h : heap := {[ 1%positive := InstOk (VNum 2) ]} in
   onOk (VRef 1) f h = (Normal VUndefined, <[1%positive := InstOk (VNum 9)]> h)
   ∧ onError (VRef 1) g h = (Normal VUndefined, h))
  ∧ (let h : heap := {[ 1%positive := InstErr (VStr "bad") ]} in
     onError (VRef 1) g h = (Throw (VStr "bad"), h)
     ∧ onOk (VRef 1) f h = (Normal VUndefined, h)).
Proof.
  intros f g. split; intros h.
  - apply (onOk_onError_exclusive h (VRef 1) (Success (VNum 2)) f g). reflexivity.
  - apply (onOk_onError_exclusive h (VRef 1) (Failure (VStr "bad")) f g). reflexivity.
Defined.

(** X2. No member catches what its callback throws, on every Result in every
    heap.  When the callback cb raises x on the payload of a Success, fold
    and onOk with cb complete abruptly with x; when cb raises x on the
    payload of a Failure, mapError, fold and onError with cb complete
    abruptly with x.  In each case the heap is the one cb left and no Result
    is created; the other callback of fold plays no part. *)
Theorem callback_faults_propagate (h h1 : heap) (r x : value) (w : result_view)
    (cb other : value → M value) :
  view h r = Some w →
  match w with
  | Success v =>
      cb v h = (Throw x, h1) →
      fold r cb other h = (Throw x, h1) ∧ onOk r cb h = (Throw x, h1)
  | Failure e =>
      cb e h = (Throw x, h1) →
      mapError r cb h = (Throw x, h1)
      ∧ fold r other cb h = (Throw x, h1)
      ∧ onError r cb h = (Throw x, h1)
  end.
Proof.
  intros Hr. destruct w as [v|e]; intros Hcb; repeat split.
  - by rewrite (fold_Success h r v cb other Hr).
  - rewrite (onOk_Success h r v cb Hr). by apply bind_Throw.
  - by rewrite (mapError_Failure h r e cb Hr), Hcb.
  - by rewrite (fold_Failure h r e other cb Hr).
  - rewrite (onError_Failure h r e cb Hr). by apply bind_Throw.
Qed.

Lemma callback_faults_propagate_witness :
  let cb : value → M value := λ x, throw x in
  let other : value → M value := pure_fn id in
  (let h : heap := {[ 1%positive := InstOk (VNum 2) ]} in
   fold (VRef 1) cb other h = (Throw (VNum 2), h) ∧ onOk (VRef 1) cb h = (Throw (VNum 2), h))
  ∧ (let h : heap := {[ 1%positive := InstErr (VStr "bad") ]} in
     mapError (VRef 1) cb h = (Throw (VStr "bad"), h)
     ∧ fold (VRef 1) other cb h = (Throw (VStr "bad"), h)
     ∧ onError (VRef 1) cb h = (Throw (VStr "bad"), h)).
Proof.
  intros cb other. split; intros h.
  - apply (callback_faults_propagate h h (VRef 1) (VNum 2) (Success (VNum 2)) cb other);
      reflexivity.
  - apply (callback_faults_propagate h h (VRef 1) (VStr "bad") (Failure (VStr "bad")) cb other);
      reflexivity.
Defined.

(** ** Try and getOrThrow are inverse to each other *)

(** X3. Try(fn).getOrThrow() completes as fn() does: it returns what fn
    returns and throws the very value fn throws.  The heap is the one fn left
    plus the one Result Try created. *)
Theorem Try_then_getOrThrow (fn : M value) (h : heap) :
  (r ← Try fn; getOrThrow r) h
  = (fst (fn h),
     <[fresh (dom (snd (fn h))) :=
         match fst (fn h) with Normal x => InstOk x | Throw e => InstErr e end]>
       (snd (fn h))).
Proof.
  destruct (fn h) as [[x|e] h1] eqn:Hfn; simpl.
  - rewrite (bind_Normal _ _ _ _ _ (Try_Normal fn h h1 x Hfn)).
    apply getOrThrow_Success, view_alloc_new.
  - rewrite (bind_Normal _ _ _ _ _ (Try_Throw fn h h1 e Hfn)).
    apply getOrThrow_Failure, view_alloc_new.
Qed.

(** X4. Try(() => r.getOrThrow()) rebuilds r: it returns a new Result,
    distinct from r, with the tag and the payload of r, and leaves r as it
    was. *)
Theorem Try_of_getOrThrow (h : heap) (r : value) (w : result_view) :
  view h r = Some w →
  ∃ l, Try (getOrThrow r) h
       = (Normal (VRef l),
          <[l := match w with Success v => InstOk v | Failure e => InstErr e end]> h)
       ∧ h !! l = None
       ∧ r ≠ VRef l
       ∧ view (<[l := match w with Success v => InstOk v | Failure e => InstErr e end]> h) (VRef l)
         = Some w
       ∧ view (<[l := match w with Success v => InstOk v | Failure e => InstErr e end]> h) r
         = Some w.
Proof.
  intros Hr. exists (fresh (dom h)).
  assert (Hne : r ≠ VRef (fresh (dom h))).
  { intros ->. simpl in Hr. by rewrite fresh_lookup in Hr. }
  destruct w as [v|e].
  - rewrite (Try_Normal _ h h v (getOrThrow_Success h r v Hr)).
    repeat split; [apply fresh_lookup | done | apply view_alloc_new | by apply view_alloc_old].
  - rewrite (Try_Throw _ h h e (getOrThrow_Failure h r e Hr)).
    repeat split; [apply fresh_lookup | done | apply view_alloc_new | by apply view_alloc_old].
Qed.

Lemma Try_of_getOrThrow_witness :
  let h : heap := {[ 1%positive := InstErr (VStr "bad") ]} in
  ∃ l, Try (getOrThrow (VRef 1)) h = (Normal (VRef l), <[l := InstErr (VStr "bad")]> h)
       ∧ h !! l = None
       ∧ VRef 1 ≠ VRef l
       ∧ view (<[l := InstErr (VStr "bad")]> h) (VRef l) = Some (Failure (VStr "bad"))
       ∧ view (<[l := InstErr (VStr "bad")]> h) (VRef 1) = Some (Failure (VStr "bad")).
Proof.
  intros h. apply (Try_of_getOrThrow h (VRef 1) (Failure (VStr "bad"))). reflexivity.
Defined.

(** X5. Try around Try never yields a Failure: Try(() => Try(fn)) is always
    a Success, and its payload is the Result of the inner Try, a Success
    holding what fn returned or a Failure holding what fn threw. *)
Theorem Try_of_Try (fn : M value) (h : heap) :
  ∃ r r' h', Try (Try fn) h = (Normal r, h')
             ∧ view h' r = Some (Success r')
             ∧ view h' r' = Some (match fst (fn h) with
                                  | Normal x => Success x
                                  | Throw e => Failure e
                                  end).
Proof.
  destruct (fn h) as [[x|e] h1] eqn:Hfn; simpl.
  - pose proof (Try_Normal fn h h1 x Hfn) as Hin.
    eexists _, _, _. split; [exact (Try_Normal _ _ _ _ Hin)|].
    split; [by rewrite view_alloc_new|]. apply view_alloc_old. by rewrite view_alloc_new.
  - pose proof (Try_Throw fn h h1 e Hfn) as Hin.
    eexists _, _, _. split; [exact (Try_Normal _ _ _ _ Hin)|].
    split; [by rewrite view_alloc_new|]. apply view_alloc_old. by rewrite view_alloc_new.
Qed.

(** ** How map, mapError and fold compose *)

Lemma map_pure_Success (h : heap) (r v : value) (f : value → value) :
  view h r = Some (Success v) →
  map r (pure_fn f) h
  = (Normal (VRef (fresh (dom h))), <[fresh (dom h) := InstOk (f v)]> h).
Proof. intros Hr. by rewrite (map_Success h r v _ Hr). Qed.

Lemma mapError_pure_Failure (h : heap) (r e : value) (g : value → value) :
  view h r = Some (Failure e) →
  mapError r (pure_fn g) h
  = (Normal (VRef (fresh (dom h))), <[fresh (dom h) := InstErr (g e)]> h).
Proof. intros Hr. by rewrite (mapError_Failure h r e _ Hr). Qed.

Lemma view_new_Success (h : heap) (v : value) :
  view (<[fresh (dom h) := InstOk v]> h) (VRef (fresh (dom h))) = Some (Success v).
Proof. by rewrite view_alloc_new. Qed.

Lemma view_new_Failure (h : heap) (e : value) :
  view (<[fresh (dom h) := InstErr e]> h) (VRef (fresh (dom h))) = Some (Failure e).
Proof. by rewrite view_alloc_new. Qed.

(** X6. mapError obeys the functor laws on the failure side, and both
    transforms obey the identity law, on every Result in every heap.  For
    functions f, g of the payload alone: on a Failure holding e, mapError
    with f then with g, and mapError with their composition, both give a
    Failure holding g (f e), and mapError with the identity gives a Failure
    holding e; on a Success holding v, map with the identity gives a Success
    holding v. *)
Theorem mapError_laws (h : heap) (r : value) (w : result_view) (f g : value → value) :
  view h r = Some w →
  match w with
  | Success v =>
      ∃ r3 h3, map r (pure_fn id) h = (Normal r3, h3) ∧ view h3 r3 = Some (Success v)
  | Failure e =>
      (∃ r1 h1 r2 h2,
          (x ← mapError r (pure_fn f); mapError x (pure_fn g)) h = (Normal r1, h1)
          ∧ mapError r (pure_fn (g ∘ f)) h = (Normal r2, h2)
          ∧ view h1 r1 = Some (Failure (g (f e)))
          ∧ view h2 r2 = Some (Failure (g (f e))))
      ∧ (∃ r4 h4, mapError r (pure_fn id) h = (Normal r4, h4)
                  ∧ view h4 r4 = Some (Failure e))
  end.
Proof.
  intros Hr. destruct w as [v|e].
  - eexists _, _. split; [by apply map_pure_Success|]. apply (view_new_Success h v).
  - split.
    + eexists _, _, _, _. split; [|split; [|split]].
      * rewrite (bind_Normal _ _ _ _ _ (mapError_pure_Failure h r e f Hr)).
        apply mapError_pure_Failure, view_new_Failure.
      * by apply mapError_pure_Failure.
      * apply view_new_Failure.
      * apply (view_new_Failure h (g (f e))).
    + eexists _, _. split; [by apply mapError_pure_Failure|]. apply (view_new_Failure h e).
Qed.

Lemma mapError_laws_witness :
  let f := λ x, match x with VNum n => VNum (n * 2) | _ => x end in
  let g := λ x, match x with VNum n => VNum (n + 1) | _ => x end in
  (let h : heap := {[ 1%positive := InstErr (VNum 7) ]} in
   (∃ r1 h1 r2 h2,
       (x ← mapError (VRef 1) (pure_fn f); mapError x (pure_fn g)) h = (Normal r1, h1)
       ∧ mapError (VRef 1) (pure_fn (g ∘ f)) h = (Normal r2, h2)
       ∧ view h1 r1 = Some (Failure (VNum 15))
       ∧ view h2 r2 = Some (Failure (VNum 15)))
   ∧ (∃ r4 h4, mapError (VRef 1) (pure_fn id) h = (Normal r4, h4)
               ∧ view h4 r4 = Some (Failure (VNum 7))))
  ∧ (let h : heap := {[ 1%positive := InstOk (VNum 42) ]} in
     ∃ r3 h3, map (VRef 1) (pure_fn id) h = (Normal r3, h3)
              ∧ view h3 r3 = Some (Success (VNum 42))).
Proof.
  intros f g. split; intros h.
  - apply (mapError_laws h (VRef 1) (Failure (VNum 7)) f g). reflexivity.
  - apply (mapError_laws h (VRef 1) (Success (VNum 42)) f g). reflexivity.
Defined.

(** X7. map and mapError commute.  For functions f, g of the payload alone,
    r.map(f).mapError(g) and r.mapError(g).map(f) give Results with the same
    tag and payload: a Success holding f v when r is a Success holding v, a
    Failure holding g e when r is a Failure holding e. *)
Theorem map_mapError_commute (h : heap) (r : value) (w : result_view) (f g : value → value) :
  view h r = Some w →
  ∃ r1 h1 r2 h2,
    (x ← map r (pure_fn f); mapError x (pure_fn g)) h = (Normal r1, h1)
    ∧ (x ← mapError r (pure_fn g); map x (pure_fn f)) h = (Normal r2, h2)
    ∧ view h1 r1 = Some (match w with Success v => Success (f v) | Failure e => Failure (g e) end)
    ∧ view h2 r2 = Some (match w with Success v => Success (f v) | Failure e => Failure (g e) end).
Proof.
  intros Hr. destruct w as [v|e].
  - eexists _, _, _, _. split; [|split; [|split]].
    + rewrite (bind_Normal _ _ _ _ _ (map_pure_Success h r v f Hr)).
      apply mapError_Success with (f v), view_new_Success.
    + rewrite (bind_Normal _ _ _ _ _ (mapError_Success h r v _ Hr)).
      by apply map_pure_Success.
    + apply view_new_Success.
    + apply (view_new_Success h (f v)).
  - eexists _, _, _, _. split; [|split; [|split]].
    + rewrite (bind_Normal _ _ _ _ _ (map_Failure h r e _ Hr)).
      by apply mapError_pure_Failure.
    + rewrite (bind_Normal _ _ _ _ _ (mapError_pure_Failure h r e g Hr)).
      apply map_Failure with (g e), view_new_Failure.
    + apply (view_new_Failure h (g e)).
    + apply view_new_Failure.
Qed.

Lemma map_mapError_commute_witness :
  let h : heap := {[ 1%positive := InstErr (VNum 7) ]} in
  let f := λ x, match x with VNum n => VNum (n * 2) | _ => x end in
  let g := λ x, match x with VNum n => VNum (n + 1) | _ => x end in
  ∃ r1 h1 r2 h2,
    (x ← map (VRef 1) (pure_fn f); mapError x (pure_fn g)) h = (Normal r1, h1)
    ∧ (x ← mapError (VRef 1) (pure_fn g); map x (pure_fn f)) h = (Normal r2, h2)
    ∧ view h1 r1 = Some (Failure (VNum 8))
    ∧ view h2 r2 = Some (Failure (VNum 8)).
Proof.
  intros h f g.
  apply (map_mapError_commute h (VRef 1) (Failure (VNum 7)) f g). reflexivity.
Defined.

(** X8. fold after a transform is one fold.  For functions of the payload
    alone, r.map(f).fold(ok, err) returns what r.fold(x => ok(f(x)), err)
    returns, and r.mapError(g).fold(ok, err) returns what
    r.fold(ok, x => err(g(x))) returns. *)
Theorem fold_fusion (h : heap) (r : value) (w : result_view) (f g ok err : value → value) :
  view h r = Some w →
  fst ((x ← map r (pure_fn f); fold x (pure_fn ok) (pure_fn err)) h)
  = fst (fold r (pure_fn (ok ∘ f)) (pure_fn err) h)
  ∧ fst ((x ← mapError r (pure_fn g); fold x (pure_fn ok) (pure_fn err)) h)
    = fst (fold r (pure_fn ok) (pure_fn (err ∘ g)) h).
Proof.
  intros Hr. destruct w as [v|e].
  - rewrite (bind_Normal _ _ _ _ _ (map_pure_Success h r v f Hr)).
    rewrite (bind_Normal _ _ _ _ _ (mapError_Success h r v _ Hr)).
    rewrite (fold_Success _ _ (f v) _ _ (view_new_Success h (f v))).
    by rewrite !(fold_Success h r v _ _ Hr).
  - rewrite (bind_Normal _ _ _ _ _ (map_Failure h r e _ Hr)).
    rewrite (bind_Normal _ _ _ _ _ (mapError_pure_Failure h r e g Hr)).
    rewrite (fold_Failure _ _ (g e) _ _ (view_new_Failure h (g e))).
    by rewrite !(fold_Failure h r e _ _ Hr).
Qed.

Lemma fold_fusion_witness :
  let h : heap := {[ 1%positive := InstOk (VNum 42) ]} in
  let f := λ x, match x with VNum n => VNum (n * 2) | _ => x end in
  fst ((x ← map (VRef 1) (pure_fn f); fold x (pure_fn id) (pure_fn (λ _, VNum (-1)))) h)
  = Normal (VNum 84)
  ∧ fst ((x ← mapError (VRef 1) (pure_fn f); fold x (pure_fn id) (pure_fn (λ _, VNum (-1)))) h)
    = Normal (VNum 42).
Proof.
  intros h f.
  apply (fold_fusion h (VRef 1) (Success (VNum 42)) f f id (λ _, VNum (-1))). reflexivity.
Defined.

(** X9. The accessors are folds.  On every Result, getOrDefault(d) is
    fold(x => x, _ => d), getOrNull() is fold(x => x, _ => null),
    errorOrNull() is fold(_ => null, x => x), and getOrThrow() is fold with
    the identity and a handler that throws its argument. *)
Theorem accessors_as_folds (h : heap) (r d : value) (w : result_view) :
  view h r = Some w →
  getOrDefault r d h = fold r (pure_fn id) (pure_fn (λ _, d)) h
  ∧ getOrNull r h = fold r (pure_fn id) (pure_fn (λ _, VNull)) h
  ∧ errorOrNull r h = fold r (pure_fn (λ _, VNull)) (pure_fn id) h
  ∧ getOrThrow r h = fold r mret throw h.
Proof.
  intros Hr. destruct w as [v|e].
  - rewrite !(fold_Success h r v _ _ Hr).
    rewrite (getOrDefault_Success h r v d Hr), (getOrNull_Success h r v Hr),
      (errorOrNull_Success h r v Hr), (getOrThrow_Success h r v Hr). done.
  - rewrite !(fold_Failure h r e _ _ Hr).
    rewrite (getOrDefault_Failure h r e d Hr), (getOrNull_Failure h r e Hr),
      (errorOrNull_Failure h r e Hr), (getOrThrow_Failure h r e Hr). done.
Qed.

Lemma accessors_as_folds_witness :
  let h : heap := {[ 1%positive := InstErr (VStr "Division by zero") ]} in
  getOrDefault (VRef 1) (VNum 1) h = fold (VRef 1) (pure_fn id) (pure_fn (λ _, VNum 1)) h
  ∧ getOrNull (VRef 1) h = fold (VRef 1) (pure_fn id) (pure_fn (λ _, VNull)) h
  ∧ errorOrNull (VRef 1) h = fold (VRef 1) (pure_fn (λ _, VNull)) (pure_fn id) h
  ∧ getOrThrow (VRef 1) h = fold (VRef 1) mret throw h.
Proof.
  intros h.
  apply (accessors_as_folds h (VRef 1) (VNum 1) (Failure (VStr "Division by zero"))).
  reflexivity.
Defined.

(** ** Try followed by an eliminator *)

(** X10. Try(fn).fold(okFn, errFn) runs okFn on what fn returned or errFn
    on what fn threw, in the heap fn left plus the Result of Try; and
    Try(fn).getOrDefault(d) never throws: it is what fn returned, or d when
    fn threw. *)
Theorem Try_then_fold (fn : M value) (h : heap) (okFn errFn : value → M value) (d : value) :
  (r ← Try fn; fold r okFn errFn) h
  = match fn h with
    | (Normal x, h1) => okFn x (<[fresh (dom h1) := InstOk x]> h1)
    | (Throw e, h1) => errFn e (<[fresh (dom h1) := InstErr e]> h1)
    end
  ∧ fst ((r ← Try fn; getOrDefault r d) h)
    = Normal (match fst (fn h) with Normal x => x | Throw _ => d end).
Proof.
  destruct (fn h) as [[x|e] h1] eqn:Hfn; simpl.
  - rewrite !(bind_Normal _ _ _ _ _ (Try_Normal fn h h1 x Hfn)).
    rewrite (fold_Success _ _ x _ _ (view_new_Success h1 x)).
    by rewrite (getOrDefault_Success _ _ x d (view_new_Success h1 x)).
  - rewrite !(bind_Normal _ _ _ _ _ (Try_Throw fn h h1 e Hfn)).
    rewrite (fold_Failure _ _ e _ _ (view_new_Failure h1 e)).
    by rewrite (getOrDefault_Failure _ _ e d (view_new_Failure h1 e)).
Qed.

(** ** The constructors *)

(** X11. Ok and Err create a new object on every call: the Result is
    stored at a location the heap did not use, it has the tag and payload it
    was built with, every Result already in the heap is as before, and two
    calls with the same payload return different references. *)
Theorem constructors_allocate (h : heap) (v : value) :
  (∃ l, Ok v h = (Normal (VRef l), <[l := InstOk v]> h) ∧ h !! l = None
        ∧ view (<[l := InstOk v]> h) (VRef l) = Some (Success v)
        ∧ ∀ r w, view h r = Some w → view (<[l := InstOk v]> h) r = Some w)
  ∧ (∃ l, Err v h = (Normal (VRef l), <[l := InstErr v]> h) ∧ h !! l = None
          ∧ view (<[l := InstErr v]> h) (VRef l) = Some (Failure v)
          ∧ ∀ r w, view h r = Some w → view (<[l := InstErr v]> h) r = Some w)
  ∧ ∃ r1 r2 h', (a ← Ok v; b ← Ok v; mret (a, b)) h = (Normal (r1, r2), h')
                ∧ r1 ≠ r2
                ∧ view h' r1 = Some (Success v) ∧ view h' r2 = Some (Success v).
Proof.
  split; [|split].
  - exists (fresh (dom h)). split; [done|]. split; [apply fresh_lookup|].
    split; [apply view_new_Success|]. intros r w. apply view_alloc_old.
  - exists (fresh (dom h)). split; [done|]. split; [apply fresh_lookup|].
    split; [apply view_new_Failure|]. intros r w. apply view_alloc_old.
  - set (h1 := <[fresh (dom h) := InstOk v]> h).
    exists (VRef (fresh (dom h))), (VRef (fresh (dom h1))), (<[fresh (dom h1) := InstOk v]> h1).
    split; [done|]. split; [|split].
    + intros [= Heq]. pose proof (fresh_lookup h1) as Hf.
      rewrite <- Heq in Hf. unfold h1 in Hf. by rewrite lookup_insert_eq in Hf.
    + apply view_alloc_old, view_new_Success.
    + apply view_new_Success.
Qed.

(** ** toString *)

Lemma toString_Success (h : heap) (r v : value) :
  view h r = Some (Success v) → toString r h = resultToString r h.
Proof.
  intros Hr. apply view_Success in Hr as (l & -> & Hl).
  unfold toString. by rewrite (dispatch_Success _ _ _ _ _ Hl).
Qed.

Lemma JSON_stringify_Ser (h : heap) (v : value) (o : option string) :
  SerializeJSONProperty (S (size h)) h [] EmptyString v = Ser o →
  JSON_stringify v h = (Normal o, h).
Proof. intros Hs. unfold JSON_stringify. by rewrite Hs. Qed.

Lemma JSON_stringify_primitive (h : heap) (v : value) :
  JSON_stringify v h =
    match v with
    | VUndefined => (Normal None, h)
    | VNull => (Normal (Some "null"), h)
    | VBool b => (Normal (Some (if b then "true" else "false")), h)
    | VNum n => (Normal (Some (pretty n)), h)
    | VStr s => (Normal (Some (QuoteJSONString s)), h)
    | VRef _ => JSON_stringify v h
    end.
Proof. destruct v as [| |[]| | |l]; by try apply JSON_stringify_Ser. Qed.

Lemma is_Error_true (h : heap) (e : value) :
  is_Error h e = true → ∃ l m, e = VRef l ∧ h !! l = Some (InstError m).
Proof.
  destruct e as [| | | | |l]; simpl; try discriminate.
  destruct (h !! l) as [[]|] eqn:Hl; try discriminate. eauto.
Qed.

Lemma Serialize_Error (h : heap) (l : loc) (m : string) :
  h !! l = Some (InstError m) →
  SerializeJSONProperty (S (size h)) h [] EmptyString (VRef l) = Ser (Some "{}").
Proof.
  intros Hl. cbn [SerializeJSONProperty].
  case_decide as Hin; [by apply elem_of_nil in Hin|]. by rewrite Hl.
Qed.

Lemma JSON_stringify_Error (h : heap) (l : loc) (m : string) :
  h !! l = Some (InstError m) → JSON_stringify (VRef l) h = (Normal (Some "{}"), h).
Proof. intros Hl. by apply JSON_stringify_Ser, Serialize_Error with m. Qed.

(** X12. toString() changes no object.  On a Result whose payload is data
    (the values of the model: no BigInt, no toJSON method, no getter), it
    returns a string and leaves the heap as it was unless serializing the
    payload meets a cycle; exactly then it raises an Error created at a
    location the heap did not use.  The objects of the heap are the same
    afterwards in both cases. *)
Theorem toString_outcomes (h : heap) (r : value) (w : result_view) :
  view h r = Some w →
  (SerializeJSONProperty (S (size h)) h [] EmptyString
     (match w with Success v => v | Failure e => e end) ≠ Cyclic
   ∧ ∃ s, toString r h = (Normal s, h))
  ∨ (SerializeJSONProperty (S (size h)) h [] EmptyString
       (match w with Success v => v | Failure e => e end) = Cyclic
     ∧ ∃ l m, h !! l = None
              ∧ toString r h = (Throw (VRef l), <[l := InstError m]> h)).
Proof.
  intros Hr. destruct w as [v|e].
  - rewrite (toString_Success h r v Hr), (resultToString_Success h r v Hr).
    destruct (JSON_stringify_total h v) as [(o & Hs & Ho)|[Hc Ht]].
    + left. split; [by rewrite Hs|]. destruct (nullish v) eqn:Hn.
      * eexists. by rewrite (bind_Normal _ _ _ _ _ (JSON_stringify_primitive h VNull)).
      * eexists. by rewrite (bind_Normal _ _ _ _ _ Ho).
    + right. split; [done|].
      destruct v as [| |[]| | |l]; try discriminate Hc. cbn [nullish].
      exists (fresh (dom h)), "Converting circular structure to JSON".
      split; [apply fresh_lookup|]. by rewrite (bind_Throw _ _ _ _ _ Ht).
  - rewrite (toString_Failure h r e Hr).
    destruct (JSON_stringify_total h e) as [(o & Hs & Ho)|[Hc Ht]].
    + left. split; [by rewrite Hs|]. destruct (is_Error h e); [by eexists|].
      rewrite (resultToString_Failure h r e Hr).
      eexists. by rewrite (bind_Normal _ _ _ _ _ Ho).
    + right. split; [done|]. destruct (is_Error h e) eqn:He.
      * apply is_Error_true in He as (l & m & -> & Hl).
        by rewrite (Serialize_Error h l m Hl) in Hc.
      * rewrite (resultToString_Failure h r e Hr).
        exists (fresh (dom h)), "Converting circular structure to JSON".
        split; [apply fresh_lookup|]. by rewrite (bind_Throw _ _ _ _ _ Ht).
Qed.

Lemma toString_outcomes_witness :
  (let h : heap := {[ 1%positive := InstOk (VRef 1) ]} in
   ∃ l m, h !! l = None ∧ toString (VRef 1) h = (Throw (VRef l), <[l := InstError m]> h))
  ∧ (let h : heap := {[ 1%positive := PlainObject [("a", VNum 1)];
                        2%positive := InstErr (VRef 1) ]} in
     ∃ s, toString (VRef 2) h = (Normal s, h)).
Proof.
  split; intros h.
  - destruct (toString_outcomes h (VRef 1) (Success (VRef 1)) eq_refl) as [[Hn _]|[_ H]].
    + exfalso. apply Hn. reflexivity.
    + exact H.
  - destruct (toString_outcomes h (VRef 2) (Failure (VRef 1)) eq_refl) as [[_ H]|[Hc _]].
    + exact H.
    + exfalso. vm_compute in Hc. discriminate Hc.
Defined.

(** A Result that holds itself: toString() raises. *)
Example toString_cyclic_payload :
  let h : heap := {[ 1%positive := InstOk (VRef 1) ]} in
  ∃ m, toString (VRef 1) h = (Throw (VRef 2), <[2%positive := InstError m]> h).
Proof. by exists "Converting circular structure to JSON". Qed.

(** X13. The rendering names the variant: whenever toString() returns, its
    string starts with Ok( on a Success and with Err( on a Failure, and ends
    with a closing parenthesis. *)
Theorem toString_format (h h' : heap) (r : value) (w : result_view) (s : string) :
  view h r = Some w →
  toString r h = (Normal s, h') →
  ∃ body, s = (match w with Success _ => "Ok(" | Failure _ => "Err(" end) ++ body ++ ")".
Proof.
  intros Hr. destruct w as [v|e].
  - rewrite (toString_Success h r v Hr), (resultToString_Success h r v Hr).
    unfold mbind, M_bind.
    destruct (JSON_stringify (if nullish v then VNull else v) h) as [[o|x] h1];
      intros [= <- _]. by exists (template_string o).
  - rewrite (toString_Failure h r e Hr). destruct (is_Error h e).
    + unfold mbind, M_bind. destruct (message_of e h) as [[m|x] h1] eqn:Hm;
        intros [= <- _]. by exists m.
    + rewrite (resultToString_Failure h r e Hr). unfold mbind, M_bind.
      destruct (JSON_stringify e h) as [[o|x] h1]; intros [= <- _].
      by exists (template_string o).
Qed.

Lemma toString_format_witness :
  let h : heap := {[ 1%positive := InstErr (VStr "Division by zero") ]} in
  ∃ body, "Err(" ++ dquote ++ "Division by zero" ++ dquote ++ ")" = "Err(" ++ body ++ ")".
Proof.
  intros h.
  apply (toString_format h h (VRef 1) (Failure (VStr "Division by zero"))); reflexivity.
Defined.

Lemma Err_rendering_braces (m : string) :
  "Err(" ++ m ++ ")" = "Err({})" → m = "{}".
Proof.
  intros H. injection H as H.
  destruct m as [|a [|b [|c m]]]; simpl in H; try discriminate H.
  - by injection H as -> ->.
  - injection H as _ _ _ H. by destruct m.
Qed.

(** X14. resultToString and toString.  On every Success, and on every
    Failure whose payload is no instance of Error, toString() is
    resultToString.  On a Failure holding an Error without enumerable
    property, with message m, toString() is Err(m) while resultToString
    renders the Error through the serializer: Err({}); the two renderings
    differ there unless m is the text {} itself. *)
Theorem resultToString_vs_toString (h : heap) (r : value) (w : result_view) :
  view h r = Some w →
  match w with
  | Success _ => toString r h = resultToString r h
  | Failure e =>
      (is_Error h e = false → toString r h = resultToString r h)
      ∧ (∀ l m, e = VRef l → h !! l = Some (InstError m) →
                resultToString r h = (Normal "Err({})", h)
                ∧ toString r h = (Normal ("Err(" ++ m ++ ")"), h)
                ∧ (toString r h = resultToString r h ↔ m = "{}"))
  end.
Proof.
  intros Hr. destruct w as [v|e].
  - by apply toString_Success with v.
  - rewrite (toString_Failure h r e Hr). split.
    + by intros ->.
    + intros l m -> Hl. rewrite (resultToString_Failure h _ _ Hr).
      rewrite (bind_Normal _ _ _ _ _ (JSON_stringify_Error h l m Hl)).
      unfold is_Error, message_of. rewrite Hl.
      unfold mbind, M_bind, mret, M_ret. rewrite Hl.
      split; [done|]. split; [done|]. split.
      * intros H. apply Err_rendering_braces.
        exact (f_equal (λ c, match c.1 with Normal s => s | Throw _ => EmptyString end) H).
      * intros Hm. by rewrite Hm.
Qed.

Lemma resultToString_vs_toString_witness :
  (let h : heap := {[ 1%positive := InstError "boom"; 2%positive := InstErr (VRef 1) ]} in
   resultToString (VRef 2) h = (Normal "Err({})", h)
   ∧ toString (VRef 2) h = (Normal "Err(boom)", h)
   ∧ (toString (VRef 2) h = resultToString (VRef 2) h ↔ "boom" = "{}"))
  ∧ (let h : heap := {[ 1%positive := InstErr (VStr "boom") ]} in
     toString (VRef 1) h = resultToString (VRef 1) h)
  ∧ (let h : heap := {[ 1%positive := InstOk (VStr "boom") ]} in
     toString (VRef 1) h = resultToString (VRef 1) h).
Proof.
  split; [|split]; intros h.
  - destruct (resultToString_vs_toString h (VRef 2) (Failure (VRef 1)) eq_refl) as [_ H].
    exact (H 1%positive "boom" eq_refl eq_refl).
  - destruct (resultToString_vs_toString h (VRef 1) (Failure (VStr "boom")) eq_refl) as [H _].
    exact (H eq_refl).
  - exact (resultToString_vs_toString h (VRef 1) (Success (VStr "boom")) eq_refl).
Defined.

(** X15. Rendering of primitive payloads, in every heap.  A Success holding
    null or undefined renders Ok(null): resultToString passes
    getOrNull() ?? errorOrNull() to the serializer, and both are null or
    undefined there.  A Failure holding undefined renders Err(undefined), one
    holding null renders Err(null).  Booleans render as true and false, a
    safe integer by its decimal digits, a string in its quoted JSON form.
    The heap is unchanged. *)
Theorem toString_primitive_payloads (h : heap) (r : value) (w : result_view) :
  view h r = Some w →
  match w with
  | Success VUndefined | Success VNull => toString r h = (Normal "Ok(null)", h)
  | Success (VBool b) => toString r h = (Normal (if b then "Ok(true)" else "Ok(false)"), h)
  | Success (VNum n) =>
      safe_integer n → toString r h = (Normal ("Ok(" ++ pretty n ++ ")"), h)
  | Success (VStr s) => toString r h = (Normal ("Ok(" ++ QuoteJSONString s ++ ")"), h)
  | Failure VUndefined => toString r h = (Normal "Err(undefined)", h)
  | Failure VNull => toString r h = (Normal "Err(null)", h)
  | Failure (VBool b) => toString r h = (Normal (if b then "Err(true)" else "Err(false)"), h)
  | Failure (VNum n) =>
      safe_integer n → toString r h = (Normal ("Err(" ++ pretty n ++ ")"), h)
  | Failure (VStr s) => toString r h = (Normal ("Err(" ++ QuoteJSONString s ++ ")"), h)
  | Success (VRef _) | Failure (VRef _) => True
  end.
Proof.
  intros Hr. destruct w as [v|e].
  - rewrite (toString_Success h r v Hr), (resultToString_Success h r v Hr).
    destruct v as [| |[]| | |l]; try done; try intros _; simpl nullish; cbv iota;
      match goal with |- context [JSON_stringify ?p] =>
        by rewrite (bind_Normal _ _ _ _ _ (JSON_stringify_primitive h p)) end.
  - destruct e as [| |[]| | |l]; try done; try intros _;
      (rewrite (toString_Failure h r _ Hr); simpl is_Error; cbv iota;
       rewrite (resultToString_Failure h r _ Hr);
       match goal with |- context [JSON_stringify ?p] =>
         by rewrite (bind_Normal _ _ _ _ _ (JSON_stringify_primitive h p)) end).
Qed.

Lemma toString_primitive_payloads_witness :
  (let h : heap := {[ 1%positive := InstOk VUndefined ]} in
   toString (VRef 1) h = (Normal "Ok(null)", h))
  ∧ (let h : heap := {[ 1%positive := InstErr VUndefined ]} in
     toString (VRef 1) h = (Normal "Err(undefined)", h))
  ∧ (let h : heap := {[ 1%positive := InstOk (VNum (-84)) ]} in
     toString (VRef 1) h = (Normal "Ok(-84)", h))
  ∧ (let h : heap := {[ 1%positive := InstErr (VNum 9007199254740991) ]} in
     toString (VRef 1) h = (Normal "Err(9007199254740991)", h)).
Proof.
  split; [|split; [|split]]; intros h.
  - apply (toString_primitive_payloads h (VRef 1) (Success VUndefined)). reflexivity.
  - apply (toString_primitive_payloads h (VRef 1) (Failure VUndefined)). reflexivity.
  - apply (toString_primitive_payloads h (VRef 1) (Success (VNum (-84)))); reflexivity.
  - apply (toString_primitive_payloads h (VRef 1) (Failure (VNum 9007199254740991)));
      reflexivity.
Defined.

(** ** TryAsync and the rest of the heap *)

(** X16. When fn returns p, TryAsync(fn) returns its promise with the body
    suspended on p, also when p is settled already or is no promise, and the
    heap is the one fn left.  Resuming the body while p is pending changes
    nothing.  Resuming it once p is settled stores exactly one new Result, a
    Success holding the value of p or a Failure holding its reason, at a
    location unused until then, and fulfils the promise of the call with it;
    the heap afterwards is the heap of the resumption with these two
    changes, so every other object is as before. *)
Theorem TryAsync_frame (fn : M value) (h h1 : heap) (p : value) :
  fn (<[fresh (dom h) := PromiseObject Pending]> h) = (Normal p, h1) →
  TryAsync fn h = (VRef (fresh (dom h)), Suspended (fresh (dom h)) p TryAsync_continuation, h1)
  ∧ (∀ h2 : heap,
        resume (Suspended (fresh (dom h)) p TryAsync_continuation) h2
        = match await_outcome h2 p with
          | None => (Suspended (fresh (dom h)) p TryAsync_continuation, h2)
          | Some c =>
              (Finished,
               <[fresh (dom h) := PromiseObject (Fulfilled (VRef (fresh (dom h2))))]>
                 (<[fresh (dom h2) := match c with
                                      | Normal x => InstOk x
                                      | Throw e => InstErr e
                                      end]> h2))
          end)
  ∧ ∀ (h2 : heap) (l : loc) (o : object),
      h2 !! l = Some o → l ≠ fresh (dom h) →
      snd (resume (Suspended (fresh (dom h)) p TryAsync_continuation) h2) !! l = Some o.
Proof.
  intros Hfn.
  assert (Hres : ∀ h2 : heap,
        resume (Suspended (fresh (dom h)) p TryAsync_continuation) h2
        = match await_outcome h2 p with
          | None => (Suspended (fresh (dom h)) p TryAsync_continuation, h2)
          | Some c =>
              (Finished,
               <[fresh (dom h) := PromiseObject (Fulfilled (VRef (fresh (dom h2))))]>
                 (<[fresh (dom h2) := match c with
                                      | Normal x => InstOk x
                                      | Throw e => InstErr e
                                      end]> h2))
          end).
  { intros h2. unfold resume. destruct (await_outcome h2 p) as [[x|e]|]; [| |done].
    - by rewrite TryAsync_continuation_Normal.
    - by rewrite TryAsync_continuation_Throw. }
  split; [|split; [exact Hres|]].
  - unfold TryAsync, async_call. by rewrite (TryAsync_body_Normal fn _ h1 p Hfn).
  - intros h2 l o Hl Hne. rewrite Hres.
    destruct (await_outcome h2 p) as [c|]; [|done]. simpl.
    rewrite lookup_insert_ne by done. by apply lookup_alloc_old.
Qed.

Lemma TryAsync_frame_witness :
  let fn : M value := alloc (PromiseObject (Fulfilled (VNum 7))) in
  let h1 : heap := {[ 1%positive := PromiseObject Pending;
                      2%positive := PromiseObject (Fulfilled (VNum 7)) ]} in
  TryAsync fn ∅ = (VRef 1, Suspended 1 (VRef 2) TryAsync_continuation, h1)
  ∧ resume (Suspended 1 (VRef 2) TryAsync_continuation) h1
    = (Finished,
       <[1%positive := PromiseObject (Fulfilled (VRef 3))]> (<[3%positive := InstOk (VNum 7)]> h1))
  ∧ snd (resume (Suspended 1 (VRef 2) TryAsync_continuation) h1) !! 2%positive
    = Some (PromiseObject (Fulfilled (VNum 7))).
Proof.
  intros fn h1.
  destruct (TryAsync_frame fn ∅ h1 (VRef 2)) as (H1 & H2 & H3); [reflexivity|].
  split; [exact H1|]. split; [exact (H2 h1)|].
  apply (H3 h1 2%positive); [reflexivity | discriminate].
Defined.
